(** * BlockingValidatorRunner: a blocking front end over the asynchronous
    mini-benchmark validator runner

  Shallow embedding of
  [tensorflow/lite/experimental/acceleration/mini_benchmark/blocking_validator_runner.cc].

  The translation unit defines the constructor, [Init] and
  [TriggerValidation].  Everything it calls lives elsewhere (the
  flatbuffer schema, [ValidatorRunnerImpl], [Validator], the C library),
  so those parts are parameters here: the schema types are the fields of
  [Schema], the calls into the outside are the methods of
  [Collaborators], each a state transformer on an arbitrary world. *)

From stdpp Require Import gmap strings list.
From Stdlib Require Import ZArith DecimalString Lia.

(** ** Machine integers *)

Module Int64.

Definition modulus : Z := 2 ^ 64.
Definition half_modulus : Z := 2 ^ 63.

(** Conversion to [size_t] / [uint64_t]: reduction modulo [2^64]. *)
Definition wrap_u64 (x : Z) : Z := x mod modulus.

(** Conversion to [int64_t] (two's complement).  The same function
    stands for the result of a signed operation that leaves the range;
    C++ leaves that case undefined, the targets compute this. *)
Definition wrap_s64 (x : Z) : Z := (x + half_modulus) mod modulus - half_modulus.

Definition fits_s64 (x : Z) : Prop := (- half_modulus <= x < half_modulus)%Z.

End Int64.

(** ** Text *)

(** [absl::StrCat] and [printf] render an integer in decimal, with a
  leading minus sign when it is negative. *)
Definition decimal (z : Z) : string := NilZero.string_of_int (Z.to_int z).

(** ** Declarations from the headers

    [configuration_generated.h], [status_codes.h] and [minimal_logging.h]
    are not part of this translation unit.  Of what they declare the code
    copies a [TFLiteSettingsT] and compares two of them with [operator==],
    passes a null [BenchmarkResult], and names one event type, one stage,
    one status code and one log severity. *)
Class Schema := {
  TFLiteSettingsT : Type;
  TFLiteSettingsT_eq_dec :: EqDecision TFLiteSettingsT;
  BenchmarkResultT : Type;
  BenchmarkEventType : Type;
  BenchmarkEventType_ERROR : BenchmarkEventType;
  BenchmarkStage : Type;
  BenchmarkStage_UNKNOWN : BenchmarkStage;
  MinibenchmarkStatus : Type;
  kMinibenchmarkCompletionEventMissing : MinibenchmarkStatus;
  LogSeverity : Type;
  TFLITE_LOG_WARNING : LogSeverity;
}.

(** Address of an object owned by the caller (error reporter, NNAPI
  support library, result evaluator); only passed on. *)
Definition Handle := Z.

(** ** Effects

    A call either returns a value in a new world, or stops at the
    dereference of a null pointer, or (in this embedding only) is cut off
    because the poll loop was given too little fuel. *)
Inductive Run (W A : Type) :=
| Returned (a : A) (w : W)
| NullDereference (w : W)
| OutOfFuel.

Arguments Returned {W A} a w.
Arguments NullDereference {W A} w.
Arguments OutOfFuel {W A}.

Definition Exec (W A : Type) : Type := W -> Run W A.

(** The value of a run that returned. *)
Definition returned {W A} (run : Run W A) : option A :=
  match run with
  | Returned a _ => Some a
  | NullDereference _ | OutOfFuel => None
  end.

Definition ret {W A} (a : A) : Exec W A := fun w => Returned a w.

Definition bind {W A B} (m : Exec W A) (k : A -> Exec W B) : Exec W B :=
  fun w =>
    match m w with
    | Returned a w' => k a w'
    | NullDereference w' => NullDereference w'
    | OutOfFuel => OutOfFuel
    end.

(** A collaborator that returns a value, and one that returns nothing. *)
Definition call {W A} (op : W -> A * W) : Exec W A :=
  fun w => let (a, w') := op w in Returned a w'.

Definition act {W} (op : W -> W) : Exec W unit :=
  fun w => Returned tt (op w).

Definition null_dereference {W A} : Exec W A := fun w => NullDereference w.

Definition out_of_fuel {W A} : Exec W A := fun _ => OutOfFuel.

Notation "x <- m ;; k" := (bind m (fun x => k))
  (at level 100, m at next level, right associativity).
Notation "m ;; k" := (bind m (fun _ => k))
  (at level 100, right associativity).

Section Model.
Context `{Schema}.

(** [CreateBenchmarkError(fbb, stage, code)]: the two fields the code
    sets, in the order of the call. *)
Record BenchmarkError := CreateBenchmarkError {
  stage : BenchmarkStage;
  code : MinibenchmarkStatus;
}.

(** [CreateBenchmarkEvent(fbb, tflite_settings, event_type, result,
    error, boottime_us, wallclock_us)].  The sub-tables are optional in
    a flatbuffer: an absent one reads back as a null pointer, [None]
    here; the call passes [0] for an absent one. *)
Record BenchmarkEvent := CreateBenchmarkEvent {
  tflite_settings : option TFLiteSettingsT;
  event_type : BenchmarkEventType;
  result : option BenchmarkResultT;
  error : option BenchmarkError;
  boottime_us : Z;
  wallclock_us : Z;
}.

(** A finished [FlatBufferBuilder] is the table it holds: one that holds
    a [TFLiteSettings] is a [TFLiteSettingsT], one that holds a
    [BenchmarkEvent] is a [BenchmarkEvent].  [UnPackTo] and
    [CreateTFLiteSettings] copy the value. *)

(** ** Construction *)

Record ValidatorRunnerOptions := {
  model_path : string;
  model_fd : Z;
  model_offset : Z;
  model_size : Z;
  storage_path : string;
  data_directory_path : string;
  per_test_timeout_ms : Z;
  custom_input_batch_size : Z;
  custom_input_data : list (list Z);
  error_reporter : Handle;
  nnapi_sl : Handle;
  validation_entrypoint_name : string;
  benchmark_result_evaluator : Handle;
}.

Record CustomValidationEmbedder := {
  embedder_batch_size : Z;
  embedder_input_data : list (list Z);
  embedder_error_reporter : Handle;
}.

(** What the constructor of [ValidatorRunnerImpl] receives, argument by
    argument. *)
Record ValidatorRunnerImpl := {
  impl_model_path : string;
  impl_storage_path : string;
  impl_data_directory_path : string;
  impl_timeout_ms : Z;
  impl_custom_validation_embedder : option CustomValidationEmbedder;
  impl_error_reporter : Handle;
  impl_nnapi_sl : Handle;
  impl_validation_entrypoint_name : string;
  impl_benchmark_evaluator : Handle;
}.

Record BlockingValidatorRunner := {
  per_test_timeout_ms_ : Z;
  storage_path_ : string;
  validator_runner_impl_ : ValidatorRunnerImpl;
}.

(** The local [model_path] of the constructor. *)
Definition constructor_model_path (options : ValidatorRunnerOptions) : string :=
  if decide (model_path options ≠ "") then model_path options
  else if decide (0 <= model_fd options)%Z then
    "fd:" +:+ decimal (model_fd options) +:+ ":" +:+
    decimal (model_offset options) +:+ ":" +:+ decimal (model_size options)
  else "".

Definition new_BlockingValidatorRunner (options : ValidatorRunnerOptions)
  : BlockingValidatorRunner :=
  {| per_test_timeout_ms_ := per_test_timeout_ms options;
     storage_path_ := storage_path options;
     validator_runner_impl_ :=
       {| impl_model_path := constructor_model_path options;
          impl_storage_path := storage_path options;
          impl_data_directory_path := data_directory_path options;
          impl_timeout_ms := per_test_timeout_ms options;
          impl_custom_validation_embedder :=
            match custom_input_data options with
            | [] => None
            | _ :: _ =>
                Some {| embedder_batch_size := custom_input_batch_size options;
                        embedder_input_data := custom_input_data options;
                        embedder_error_reporter := error_reporter options |}
            end;
          impl_error_reporter := error_reporter options;
          impl_nnapi_sl := nnapi_sl options;
          impl_validation_entrypoint_name := validation_entrypoint_name options;
          impl_benchmark_evaluator := benchmark_result_evaluator options |} |}.

(** ** The deadline (lines 95 and 96)

    [per_test_timeout_ms_ * (1 + for_settings.size())] is computed in
    [size_t]: both operands are converted to it, the product is reduced
    modulo [2^64] and then stored in an [int64_t]. *)
Definition total_timeout_ms (self : BlockingValidatorRunner) (size : nat) : Z :=
  Int64.wrap_s64
    (Int64.wrap_u64
       (Int64.wrap_u64 (per_test_timeout_ms_ self)
        * Int64.wrap_u64 (1 + Z.of_nat size))).

(** [Validator::BootTimeMicros() + total_timeout_ms * 1000], in
    [int64_t]. *)
Definition deadline_us (boot_time_micros : Z) (total_timeout : Z) : Z :=
  Int64.wrap_s64 (boot_time_micros + Int64.wrap_s64 (total_timeout * 1000)).


(** ** Collaborators

    The functions this translation unit calls and does not define.  Each
    may read and change the world: the file system, the clocks, the
    validation processes, the log. *)
Class Collaborators (W : Type) := {
  (** [unlink(path)], its status ignored by the caller *)
  unlink : string -> W -> W;
  (** [usleep(microseconds)] *)
  usleep : Z -> W -> W;
  (** [Validator::BootTimeMicros()] *)
  BootTimeMicros : W -> Z * W;
  (** [Validator::WallTimeMicros()] *)
  WallTimeMicros : W -> Z * W;
  (** [TFLITE_LOG_PROD(severity, format, ...)], the message formatted *)
  TFLITE_LOG_PROD : LogSeverity -> string -> W -> W;
  (** [ValidatorRunnerImpl::Init()] *)
  ValidatorRunnerImpl_Init : ValidatorRunnerImpl -> W -> MinibenchmarkStatus * W;
  (** [ValidatorRunnerImpl::TriggerValidationAsync(to_be_run)] *)
  TriggerValidationAsync : ValidatorRunnerImpl -> list TFLiteSettingsT -> W -> W;
  (** [ValidatorRunnerImpl::GetNumCompletedResults()] *)
  GetNumCompletedResults : ValidatorRunnerImpl -> W -> nat * W;
  (** [ValidatorRunnerImpl::GetCompletedResults()] *)
  GetCompletedResults : ValidatorRunnerImpl -> W -> list BenchmarkEvent * W;
}.

Section Runner.
Context {W : Type} `{!Collaborators W}.

(** ** [BlockingValidatorRunner::Init] *)
Definition Init (self : BlockingValidatorRunner) : Exec W MinibenchmarkStatus :=
  call (ValidatorRunnerImpl_Init (validator_runner_impl_ self)).

(** ** [BlockingValidatorRunner::TriggerValidation] *)

(** [kWaitBetweenRefresh = absl::Milliseconds(20)] *)
Definition kWaitBetweenRefresh : Z := 20.

Definition ToInt64Microseconds (milliseconds : Z) : Z := (milliseconds * 1000)%Z.

(** Lines 98 to 106: the [while] loop.  The condition reads the count
    first; only when it is below [size] does it read the clock and assign
    [within_timeout]. *)
Fixpoint poll_loop (fuel : nat) (impl : ValidatorRunnerImpl) (size : nat)
    (deadline : Z) (within_timeout : bool) : Exec W bool :=
  match fuel with
  | O => out_of_fuel
  | S fuel' =>
      count <- call (GetNumCompletedResults impl) ;;
      if decide (count < size)%nat then
        now <- call BootTimeMicros ;;
        if decide (now < deadline)%Z then
          act (usleep (ToInt64Microseconds kWaitBetweenRefresh)) ;;
          poll_loop fuel' impl size deadline true
        else ret false
      else ret within_timeout
  end.

(** Lines 76 to 106: delete the storage file, copy the settings, hand the
    copies to the runner, compute the deadline, wait.  Yields
    [within_timeout] and [total_timeout_ms]. *)
Definition dispatch_and_wait (fuel : nat) (self : BlockingValidatorRunner)
    (for_settings : list TFLiteSettingsT) : Exec W (bool * Z) :=
  act (unlink (storage_path_ self)) ;;
  let to_be_run := for_settings in
  act (TriggerValidationAsync (validator_runner_impl_ self) to_be_run) ;;
  let total := total_timeout_ms self (length for_settings) in
  boot <- call BootTimeMicros ;;
  within_timeout <-
    poll_loop fuel (validator_runner_impl_ self) (length for_settings)
      (deadline_us boot total) true ;;
  ret (within_timeout, total).

(** Lines 110 to 120: the two warnings. *)
Definition log_outcome (within_timeout : bool) (total : Z) (started received : nat)
    : W -> W :=
  if negb within_timeout then
    TFLITE_LOG_PROD TFLITE_LOG_WARNING
      ("Validation timed out after " +:+ decimal total +:+
       " ms. Return before all tests finished.")
  else if decide (started ≠ received) then
    TFLITE_LOG_PROD TFLITE_LOG_WARNING
      ("Validation completed.Started benchmarking for " +:+
       decimal (Z.of_nat started) +:+ " TFLiteSettings, received " +:+
       decimal (Z.of_nat received) +:+ " results.")
  else fun w => w.

(** Lines 123 to 131: [event->tflite_settings()->UnPackTo(...)] for each
    fetched result, in order.  There is no test of the pointer. *)
Fixpoint collect_result_settings (results : list BenchmarkEvent)
    : Exec W (list TFLiteSettingsT) :=
  match results with
  | [] => ret []
  | event :: rest =>
      match tflite_settings event with
      | None => null_dereference
      | Some event_settings =>
          result_settings <- collect_result_settings rest ;;
          ret (event_settings :: result_settings)
      end
  end.

(** The event of lines 137 to 142. *)
Definition missing_completion_event (settings_obj : TFLiteSettingsT)
    (boot wall : Z) : BenchmarkEvent :=
  CreateBenchmarkEvent (Some settings_obj) BenchmarkEventType_ERROR None
    (Some (CreateBenchmarkError BenchmarkStage_UNKNOWN
             kMinibenchmarkCompletionEventMissing))
    boot wall.

(** Both clocks, as read for one event.  C++ leaves the order of the two
    reads open; here the boot clock is read first. *)
Definition read_clocks : W -> (Z * Z) * W :=
  fun w =>
    let (boot, w1) := BootTimeMicros w in
    let (wall, w2) := WallTimeMicros w1 in
    ((boot, wall), w2).

(** Lines 132 to 145: [std::find] over [result_settings] for each
    requested settings object; an error event is appended to [results]
    when it is not found. *)
Fixpoint add_missing_events (result_settings : list TFLiteSettingsT)
    (for_settings_obj : list TFLiteSettingsT) (results : list BenchmarkEvent)
    : Exec W (list BenchmarkEvent) :=
  match for_settings_obj with
  | [] => ret results
  | settings_obj :: rest =>
      if decide (settings_obj ∈ result_settings) then
        add_missing_events result_settings rest results
      else
        clocks <- call read_clocks ;;
        add_missing_events result_settings rest
          (results ++ [missing_completion_event settings_obj clocks.1 clocks.2])
  end.

(** Lines 108 to 146: fetch, warn, reconcile. *)
Definition reconcile (self : BlockingValidatorRunner)
    (for_settings_obj : list TFLiteSettingsT) (within_timeout : bool) (total : Z)
    : Exec W (list BenchmarkEvent) :=
  results <- call (GetCompletedResults (validator_runner_impl_ self)) ;;
  act (log_outcome within_timeout total (length for_settings_obj) (length results)) ;;
  result_settings <- collect_result_settings results ;;
  add_missing_events result_settings for_settings_obj results.

Definition TriggerValidation (fuel : nat) (self : BlockingValidatorRunner)
    (for_settings : list TFLiteSettingsT) : Exec W (list BenchmarkEvent) :=
  match for_settings with
  | [] => ret []
  | _ :: _ =>
      let for_settings_obj := for_settings in
      waited <- dispatch_and_wait fuel self for_settings ;;
      reconcile self for_settings_obj waited.1 waited.2
  end.

(** ** Notions used to state the properties *)

(** The world once the storage file is deleted and the batch handed over
    (line 91), the reading of the boot clock taken there (line 96), the
    world in which the loop starts, and the deadline of the call. *)
Definition world_after_dispatch (self : BlockingValidatorRunner)
    (for_settings : list TFLiteSettingsT) (w : W) : W :=
  TriggerValidationAsync (validator_runner_impl_ self) for_settings
    (unlink (storage_path_ self) w).

Definition dispatch_time (self : BlockingValidatorRunner)
    (for_settings : list TFLiteSettingsT) (w : W) : Z :=
  (BootTimeMicros (world_after_dispatch self for_settings w)).1.

Definition world_at_loop_entry (self : BlockingValidatorRunner)
    (for_settings : list TFLiteSettingsT) (w : W) : W :=
  (BootTimeMicros (world_after_dispatch self for_settings w)).2.

Definition computed_deadline (self : BlockingValidatorRunner)
    (for_settings : list TFLiteSettingsT) (w : W) : Z :=
  deadline_us (dispatch_time self for_settings w)
    (total_timeout_ms self (length for_settings)).

(** One test of the loop condition in world [w]: the count it reads, the
    clock it reads after that, and whether it leaves the loop. *)
Definition count_read (impl : ValidatorRunnerImpl) (w : W) : nat :=
  (GetNumCompletedResults impl w).1.

Definition clock_read (impl : ValidatorRunnerImpl) (w : W) : Z :=
  (BootTimeMicros (GetNumCompletedResults impl w).2).1.

Definition exit_condition (impl : ValidatorRunnerImpl) (size : nat) (deadline : Z)
    (w : W) : Prop :=
  (size <= count_read impl w)%nat \/ (deadline <= clock_read impl w)%Z.

(** What the loop does in [w] when it does not leave: it sleeps. *)
Definition world_after_sleep (impl : ValidatorRunnerImpl) (w : W) : W :=
  usleep (ToInt64Microseconds kWaitBetweenRefresh)
    (BootTimeMicros (GetNumCompletedResults impl w).2).2.

(** The loop of the call started in [w] was left in [w_exit] with
    [within_timeout] as its flag. *)
Definition loop_left (fuel : nat) (self : BlockingValidatorRunner)
    (for_settings : list TFLiteSettingsT) (w : W) (within_timeout : bool)
    (w_exit : W) : Prop :=
  poll_loop fuel (validator_runner_impl_ self) (length for_settings)
    (computed_deadline self for_settings w) true
    (world_at_loop_entry self for_settings w)
  = Returned within_timeout w_exit.

(** The records fetched when the loop was left in [w], and the world in
    which the missing events are then built. *)
Definition fetched_at (self : BlockingValidatorRunner) (w : W) : list BenchmarkEvent :=
  (GetCompletedResults (validator_runner_impl_ self) w).1.

Definition world_at_reconcile (self : BlockingValidatorRunner) (size : nat)
    (within_timeout : bool) (total : Z) (w : W) : W :=
  log_outcome within_timeout total size (length (fetched_at self w))
    (GetCompletedResults (validator_runner_impl_ self) w).2.

(** The requests that [std::find] does not find, in batch order. *)
Definition unmatched (result_settings for_settings_obj : list TFLiteSettingsT)
    : list TFLiteSettingsT :=
  filter (fun settings_obj => settings_obj ∉ result_settings) for_settings_obj.

(** The requests that [std::find] finds, in batch order. *)
Definition matched (result_settings for_settings_obj : list TFLiteSettingsT)
    : list TFLiteSettingsT :=
  filter (fun settings_obj => settings_obj ∈ result_settings) for_settings_obj.

(** The world after [k] events were built, each reading both clocks. *)
Definition after_reads (k : nat) (w : W) : W :=
  Nat.iter k (fun w => (read_clocks w).2) w.

(** The events built for a list of requests, starting in [w]. *)
Fixpoint synthesized (requests : list TFLiteSettingsT) (w : W) : list BenchmarkEvent :=
  match requests with
  | [] => []
  | settings_obj :: rest =>
      missing_completion_event settings_obj (read_clocks w).1.1 (read_clocks w).1.2
      :: synthesized rest (read_clocks w).2
  end.

(** How many records of a sequence carry a given spec, and how often a
    spec occurs in a batch. *)
Definition records_for (s : TFLiteSettingsT) (records : list BenchmarkEvent) : nat :=
  length (filter (fun event => tflite_settings event = Some s) records).

Definition occurrences (s : TFLiteSettingsT) (batch : list TFLiteSettingsT) : nat :=
  length (filter (fun s' => s' = s) batch).

End Runner.

(** ** A clock that advances

    What the termination of the poll loop asks of the collaborators: the
    reading of the boot clock never goes back across a read of the clock
    or of the count, and is strictly greater after a sleep. *)
Definition boot_now {W} `{!Collaborators W} (w : W) : Z := (BootTimeMicros w).1.

Class AdvancingClock (W : Type) `{!Collaborators W} : Prop := {
  boot_read_monotone : forall w : W, (boot_now w <= boot_now (BootTimeMicros w).2)%Z;
  count_read_monotone :
    forall impl (w : W), (boot_now w <= boot_now (GetNumCompletedResults impl w).2)%Z;
  sleep_advances :
    forall d (w : W), (0 < d)%Z -> (boot_now w < boot_now (usleep d w))%Z;
}.

(** ** A world for the collaborators *)

(** What happens during one sleep of the caller: the sleep may last
    longer than asked, the wall clock may be adjusted, and the validation
    processes may append events to the storage file. *)
Record EnvStep := {
  oversleep : nat;
  wall_drift : Z;
  appended : list BenchmarkEvent;
}.

Inductive Call :=
| CallUnlink (path : string)
| CallSleep (microseconds : Z)
| CallBootTime
| CallWallTime
| CallLog (severity : LogSeverity) (message : string)
| CallInit
| CallTriggerAsync (storage : string) (to_be_run : list TFLiteSettingsT)
| CallGetNum (storage : string)
| CallGetResults (storage : string).

(** Modelled from the spec: the collaborators of sections 4.2, 5 and 6,
    none of which this translation unit defines.  The Completion Store is
    the file at the storage path, a sequence of Result Records that only
    grows until the path is deleted; the engine writes to the path of the
    runner it was last triggered on, while the caller sleeps; the count
    and the fetch read that file; deleting the path empties it.  [script]
    lists what the environment does during the sleeps to come, and
    [calls] the calls made so far, oldest first. *)
Record World := {
  boot_clock : Z;
  wall_clock : Z;
  files : gmap string (list BenchmarkEvent);
  engine_target : option string;
  init_status : MinibenchmarkStatus;
  script : list EnvStep;
  calls : list Call;
}.

(** The contents of the file at [path]; a file that does not exist holds
    no record. *)
Definition stored (path : string) (w : World) : list BenchmarkEvent :=
  default [] (files w !! path).

(** Every call of a collaborator is noted in [calls]. *)
Definition record_call (c : Call) (w : World) : World :=
  {| boot_clock := boot_clock w; wall_clock := wall_clock w; files := files w;
     engine_target := engine_target w; init_status := init_status w;
     script := script w; calls := calls w ++ [c] |}.

(** Modelled from the spec: [unlink] deletes the Completion Store path
    (section 4.2). *)
Definition world_unlink (path : string) (w : World) : World :=
  record_call (CallUnlink path)
    {| boot_clock := boot_clock w; wall_clock := wall_clock w;
       files := delete path (files w);
       engine_target := engine_target w; init_status := init_status w;
       script := script w; calls := calls w |}.

(** Modelled from the spec: the dispatch does not block and does not
    fail the call (section 4.2); from then on the engine writes to the
    storage path of the runner. *)
Definition world_trigger (impl : ValidatorRunnerImpl)
    (to_be_run : list TFLiteSettingsT) (w : World) : World :=
  record_call (CallTriggerAsync (impl_storage_path impl) to_be_run)
    {| boot_clock := boot_clock w; wall_clock := wall_clock w; files := files w;
       engine_target := Some (impl_storage_path impl);
       init_status := init_status w; script := script w; calls := calls w |}.

(** Modelled from the spec: the engine appends Result Records to the
    Completion Store (section 3); it writes nothing before a dispatch. *)
Definition engine_writes (events : list BenchmarkEvent) (w : World)
    : gmap string (list BenchmarkEvent) :=
  match engine_target w with
  | Some path => <[path := stored path w ++ events]> (files w)
  | None => files w
  end.

(** Modelled from the spec: a sleep lasts at least as long as asked, and
    the environment takes its next step during it; once the script is
    used up the engine is silent (sections 4.3 and 5). *)
Definition world_sleep (microseconds : Z) (w : World) : World :=
  record_call (CallSleep microseconds)
    match script w with
    | [] =>
        {| boot_clock := boot_clock w + microseconds;
           wall_clock := wall_clock w + microseconds;
           files := files w; engine_target := engine_target w;
           init_status := init_status w; script := []; calls := calls w |}
    | step :: later =>
        {| boot_clock := boot_clock w + microseconds + Z.of_nat (oversleep step);
           wall_clock :=
             wall_clock w + microseconds + Z.of_nat (oversleep step) + wall_drift step;
           files := engine_writes (appended step) w;
           engine_target := engine_target w;
           init_status := init_status w; script := later; calls := calls w |}
    end.

(** The same world with other contents in the file at [path]. *)
Definition with_stored (path : string) (records : list BenchmarkEvent) (w : World)
    : World :=
  {| boot_clock := boot_clock w; wall_clock := wall_clock w;
     files := <[path := records]> (files w);
     engine_target := engine_target w; init_status := init_status w;
     script := script w; calls := calls w |}.

(** The calls that delete the storage file or hand a batch to the
    engine. *)
Definition resets_or_dispatches (c : Call) : bool :=
  match c with
  | CallUnlink _ | CallTriggerAsync _ _ => true
  | _ => false
  end.

(** The records the engine appends during the first [k] sleeps to come. *)
Definition written_during (k : nat) (w : World) : list BenchmarkEvent :=
  concat (appended <$> take k (script w)).

(** Modelled from the spec: the clocks are read off the world, the
    count and the fetch read the storage file of the runner
    (section 6). *)
#[export] Instance world_collaborators : Collaborators World := {|
  unlink := world_unlink;
  usleep := world_sleep;
  BootTimeMicros := fun w => (boot_clock w, record_call CallBootTime w);
  WallTimeMicros := fun w => (wall_clock w, record_call CallWallTime w);
  TFLITE_LOG_PROD := fun severity message => record_call (CallLog severity message);
  ValidatorRunnerImpl_Init := fun _ w => (init_status w, record_call CallInit w);
  TriggerValidationAsync := world_trigger;
  GetNumCompletedResults := fun impl w =>
    (length (stored (impl_storage_path impl) w),
     record_call (CallGetNum (impl_storage_path impl)) w);
  GetCompletedResults := fun impl w =>
    (stored (impl_storage_path impl) w,
     record_call (CallGetResults (impl_storage_path impl)) w);
|}.

(** Modelled from the spec: a world whose clock stands still and whose
    engine stays silent, against which the deadline cannot be reached. *)
Definition frozen_collaborators (status : MinibenchmarkStatus) : Collaborators unit := {|
  unlink := fun _ w => w;
  usleep := fun _ w => w;
  BootTimeMicros := fun w => (0%Z, w);
  WallTimeMicros := fun w => (0%Z, w);
  TFLITE_LOG_PROD := fun _ _ w => w;
  ValidatorRunnerImpl_Init := fun _ w => (status, w);
  TriggerValidationAsync := fun _ _ w => w;
  GetNumCompletedResults := fun _ w => (0%nat, w);
  GetCompletedResults := fun _ w => ([], w);
|}.

End Model.

(** ** A scenario to run the definitions on

    Settings are named by a string, a benchmark result is a verdict, the
    enumerations hold a few values each, and the storage file of the
    runner is [/data/results.fb]. *)
Module Scenario.

Inductive EventType :=
| EventEnd
| EventError
| EventLogged.

Inductive Stage :=
| StageUnknown
| StageInference.

Inductive Status :=
| StatusSuccess
| StatusCompletionEventMissing.

Inductive Severity :=
| SeverityWarning
| SeverityError.

#[export] Instance schema : Schema := {|
  TFLiteSettingsT := string;
  BenchmarkResultT := bool;
  BenchmarkEventType := EventType;
  BenchmarkEventType_ERROR := EventError;
  BenchmarkStage := Stage;
  BenchmarkStage_UNKNOWN := StageUnknown;
  MinibenchmarkStatus := Status;
  kMinibenchmarkCompletionEventMissing := StatusCompletionEventMissing;
  LogSeverity := Severity;
  TFLITE_LOG_WARNING := SeverityWarning;
|}.

Definition options_with (path : string) (fd : Z) (timeout_ms : Z)
    : ValidatorRunnerOptions :=
  {| model_path := path; model_fd := fd; model_offset := 0; model_size := 1024;
     storage_path := "/data/results.fb"; data_directory_path := "/data";
     per_test_timeout_ms := timeout_ms;
     custom_input_batch_size := 0; custom_input_data := [];
     error_reporter := 0%Z; nnapi_sl := 0%Z;
     validation_entrypoint_name := "validation_entrypoint";
     benchmark_result_evaluator := 0%Z |}.

Definition settings (name : string) : TFLiteSettingsT := name.

Definition batch (names : list string) : list TFLiteSettingsT := names.

(** A runner with a per-test timeout of one second. *)
Definition runner : BlockingValidatorRunner :=
  new_BlockingValidatorRunner (options_with "/data/model.tflite" (-1) 1000).

(** The event the engine writes for a validation that passed. *)
Definition passed (name : string) (boot wall : Z) : BenchmarkEvent :=
  CreateBenchmarkEvent (Some (settings name)) EventEnd (Some true) None boot wall.

(** An event that embeds no settings. *)
Definition bare_event : BenchmarkEvent :=
  CreateBenchmarkEvent None EventLogged None None 0 0.

Definition quiet_sleep : EnvStep :=
  {| oversleep := 0; wall_drift := 0; appended := [] |}.

Definition sleep_writing (events : list BenchmarkEvent) : EnvStep :=
  {| oversleep := 0; wall_drift := 0; appended := events |}.

(** A world at boot time 5 s in which the storage file holds [old] and
    the environment will act as [steps] say. *)
Definition world_with (old : list BenchmarkEvent) (steps : list EnvStep) : World :=
  {| boot_clock := 5000000; wall_clock := 1700000000000000;
     files := {[ "/data/results.fb" := old ]};
     engine_target := None; init_status := StatusSuccess;
     script := steps; calls := [] |}.

(** The example of the design: the engine finishes ["cpu"] during the
    second sleep and never reports on anything else. *)
Definition one_completion : World :=
  world_with [] [quiet_sleep; sleep_writing [passed "cpu" 5030000 1700000000030000]].

(** The engine reports on ["cpu"] and on ["gpu"] during the first sleep. *)
Definition two_completions : World :=
  world_with []
    [sleep_writing [passed "cpu" 5010000 1700000000010000;
                    passed "gpu" 5015000 1700000000015000]].

(** The engine writes an event without settings during the first sleep. *)
Definition bare_completion : World :=
  world_with [] [sleep_writing [bare_event]].

(** The engine reports on ["cpu"] once, during the first sleep. *)
Definition single_completion : World :=
  world_with [] [sleep_writing [passed "cpu" 5010000 1700000000010000]].

(** The engine reports once on ["cpu"] and twice on ["gpu"] during the
    first sleep. *)
Definition surplus_completions : World :=
  world_with []
    [sleep_writing [passed "cpu" 5010000 1700000000010000;
                    passed "gpu" 5012000 1700000000012000;
                    passed "gpu" 5015000 1700000000015000]].

(** An earlier call left a record in the storage file, and the engine
    stays silent. *)
Definition stale_store : World :=
  world_with [passed "cpu" 4000000 1699999999000000] [].

(** The world in which the loop of a call is left. *)
Definition loop_exit (fuel : nat) (self : BlockingValidatorRunner)
    (for_settings : list TFLiteSettingsT) (w : World) : World :=
  match poll_loop fuel (validator_runner_impl_ self) (length for_settings)
          (computed_deadline self for_settings w) true
          (world_at_loop_entry self for_settings w) with
  | Returned _ w_exit => w_exit
  | NullDereference _ | OutOfFuel => w
  end.

End Scenario.

(** * Properties *)

(** ** Arithmetic modulo [2^64] *)
Section Int64_facts.
Import Int64.

Lemma wrap_s64_range x : fits_s64 (wrap_s64 x).
Proof.
  unfold fits_s64, wrap_s64.
  pose proof (Z.mod_pos_bound (x + half_modulus) modulus) as Hb.
  unfold modulus, half_modulus in *. lia.
Qed.

Lemma wrap_s64_fits x : fits_s64 x -> wrap_s64 x = x.
Proof.
  unfold fits_s64, wrap_s64, modulus, half_modulus. intros Hx.
  rewrite Z.mod_small by lia. lia.
Qed.

(** Two integers that differ by a multiple of [2^64] wrap alike. *)
Lemma wrap_s64_congr x y k : (x = y + k * modulus)%Z -> wrap_s64 x = wrap_s64 y.
Proof.
  intros ->. unfold wrap_s64.
  replace (y + k * modulus + half_modulus)%Z
    with (y + half_modulus + k * modulus)%Z by lia.
  by rewrite Z.mod_add by (unfold modulus; lia).
Qed.

Lemma wrap_u64_decomp x : exists k, (wrap_u64 x = x + k * modulus)%Z.
Proof.
  exists (- (x / modulus))%Z. unfold wrap_u64.
  pose proof (Z.div_mod x modulus) as Hd. unfold modulus in *. lia.
Qed.

Lemma wrap_s64_decomp x : exists k, (wrap_s64 x = x + k * modulus)%Z.
Proof.
  exists (- ((x + half_modulus) / modulus))%Z. unfold wrap_s64.
  pose proof (Z.div_mod (x + half_modulus) modulus) as Hd.
  unfold modulus, half_modulus in *. lia.
Qed.

End Int64_facts.

Section Deadline_facts.
Context `{Schema}.
Import Int64.

(** The stored timeout is the exact product, wrapped once. *)
Lemma total_timeout_ms_wrap (self : BlockingValidatorRunner) (size : nat) :
  total_timeout_ms self size
  = wrap_s64 (per_test_timeout_ms_ self * (1 + Z.of_nat size)).
Proof.
  unfold total_timeout_ms.
  destruct (wrap_u64_decomp (per_test_timeout_ms_ self)) as [k1 ->].
  destruct (wrap_u64_decomp (1 + Z.of_nat size)) as [k2 ->].
  match goal with |- wrap_s64 (wrap_u64 ?p) = _ =>
    destruct (wrap_u64_decomp p) as [k3 ->] end.
  apply (wrap_s64_congr _ _
    (k3 + k1 * (1 + Z.of_nat size) + k2 * per_test_timeout_ms_ self
     + k1 * k2 * modulus)%Z).
  lia.
Qed.

Lemma deadline_us_wrap (boot total exact : Z) :
  wrap_s64 exact = total ->
  deadline_us boot total = wrap_s64 (boot + exact * 1000).
Proof.
  intros <-. unfold deadline_us.
  destruct (wrap_s64_decomp exact) as [k1 ->].
  match goal with |- wrap_s64 (_ + wrap_s64 ?p) = _ =>
    destruct (wrap_s64_decomp p) as [k2 ->] end.
  apply (wrap_s64_congr _ _ (k2 + k1 * 1000)%Z). lia.
Qed.

End Deadline_facts.

(** ** The constructor *)
Section Constructor_facts.
Context `{Schema}.

(** C9.  The constructor hands [ValidatorRunnerImpl] one string as the
    model reference: a non-empty [model_path] is passed unchanged,
    whatever the descriptor; with an empty path and a descriptor that is
    not negative the string is ["fd:"], the descriptor, [":"], the offset,
    [":"] and the size, the three numbers in decimal; with an empty path
    and a negative descriptor it is the empty string. *)
Theorem model_reference_token (options : ValidatorRunnerOptions) :
  let token :=
    impl_model_path (validator_runner_impl_ (new_BlockingValidatorRunner options)) in
  (model_path options ≠ "" -> token = model_path options)
  /\ (model_path options = "" -> (0 <= model_fd options)%Z ->
      token = "fd:" +:+ decimal (model_fd options) +:+ ":" +:+
              decimal (model_offset options) +:+ ":" +:+
              decimal (model_size options))
  /\ (model_path options = "" -> (model_fd options < 0)%Z -> token = "").
Proof.
  cbn. unfold constructor_model_path. repeat split.
  - intros Hpath. by rewrite decide_True.
  - intros Hpath Hfd. rewrite decide_False by (intros Hne; by apply Hne).
    by rewrite decide_True.
  - intros Hpath Hfd. rewrite decide_False by (intros Hne; by apply Hne).
    rewrite decide_False by lia. done.
Qed.

End Constructor_facts.

(** The three cases on the scenario's options: a path next to a valid
    descriptor, a descriptor alone, and neither. *)
Lemma model_reference_token_witness :
  impl_model_path (validator_runner_impl_
      (new_BlockingValidatorRunner (Scenario.options_with "/data/model.tflite" 3 1000)))
    = "/data/model.tflite"
  /\ impl_model_path (validator_runner_impl_
      (new_BlockingValidatorRunner (Scenario.options_with "" 3 1000)))
    = "fd:3:0:1024"
  /\ impl_model_path (validator_runner_impl_
      (new_BlockingValidatorRunner (Scenario.options_with "" (-1) 1000)))
    = "".
Proof.
  split; [|split].
  - apply (model_reference_token (Scenario.options_with "/data/model.tflite" 3 1000)).
    discriminate.
  - apply (model_reference_token (Scenario.options_with "" 3 1000)); [reflexivity|].
    simpl. lia.
  - apply (model_reference_token (Scenario.options_with "" (-1) 1000)); [reflexivity|].
    simpl. lia.
Defined.

(** ** The two halves of a call *)
Section Reconcile_facts.
Context `{Schema} {W : Type} `{!Collaborators W}.
Implicit Types (w : W) (rs objs : list TFLiteSettingsT).
Implicit Types (results : list BenchmarkEvent).

(** The loop of a call runs against [computed_deadline], from
    [world_at_loop_entry]. *)
Lemma dispatch_and_wait_eq fuel (self : BlockingValidatorRunner)
    (for_settings : list TFLiteSettingsT) (w : W) :
  dispatch_and_wait fuel self for_settings w
  = match poll_loop fuel (validator_runner_impl_ self) (length for_settings)
            (computed_deadline self for_settings w) true
            (world_at_loop_entry self for_settings w) with
    | Returned within_timeout w' =>
        Returned (within_timeout, total_timeout_ms self (length for_settings)) w'
    | NullDereference w' => NullDereference w'
    | OutOfFuel => OutOfFuel
    end.
Proof.
  unfold dispatch_and_wait, computed_deadline, dispatch_time, world_at_loop_entry,
    world_after_dispatch, bind, act, call, ret.
  by destruct (BootTimeMicros _) as [boot w1].
Qed.

Lemma collect_result_settings_inv results w rs w' :
  collect_result_settings results w = Returned rs w' ->
  w' = w /\ tflite_settings <$> results = Some <$> rs.
Proof.
  revert rs. induction results as [|event rest IH]; intros rs; simpl.
  - unfold ret. by intros [= <- <-].
  - destruct (tflite_settings event) as [s|] eqn:Hs; [|discriminate].
    unfold bind.
    destruct (collect_result_settings rest w) as [l w1| |]; try discriminate.
    unfold ret. intros [= <- <-].
    destruct (IH l eq_refl) as [-> Hmap]. split; [done|].
    rewrite fmap_cons. f_equal. exact Hmap.
Qed.

Lemma collect_result_settings_complete results rs w :
  tflite_settings <$> results = Some <$> rs ->
  collect_result_settings results w = Returned rs w.
Proof.
  revert rs. induction results as [|event rest IH]; intros [|s rs]; simpl;
    try discriminate; [done|].
  intros [= Hevent Hrest]. rewrite Hevent. unfold bind.
  by rewrite (IH rs Hrest).
Qed.

Lemma collect_result_settings_null results w :
  (exists event, event ∈ results /\ tflite_settings event = None) ->
  collect_result_settings results w = NullDereference w.
Proof.
  induction results as [|first rest IH]; intros (event & Hin & Hnone).
  - by apply elem_of_nil in Hin.
  - simpl. destruct (tflite_settings first) as [s|] eqn:Hfirst; [|done].
    apply elem_of_cons in Hin as [->|Hin]; [congruence|].
    unfold bind. by rewrite IH by eauto.
Qed.

(** Every fetched record embeds settings, or one of them does not. *)
Lemma embedded_settings_cases results :
  (exists rs, tflite_settings <$> results = Some <$> rs)
  \/ (exists event, event ∈ results /\ tflite_settings event = None).
Proof.
  induction results as [|first rest [[rs Hrs]|(event & Hin & Hnone)]].
  - left. by exists [].
  - destruct (tflite_settings first) as [s|] eqn:Hfirst.
    + left. exists (s :: rs). by rewrite !fmap_cons, Hfirst, Hrs.
    + right. exists first. split; [apply elem_of_cons; by left|done].
  - right. exists event. split; [apply elem_of_cons; by right|done].
Qed.

Lemma after_reads_succ k w :
  after_reads (S k) w = after_reads k (read_clocks w).2.
Proof. unfold after_reads. by rewrite Nat.iter_succ_r. Qed.

Lemma unmatched_cons_found rs s objs :
  s ∈ rs -> unmatched rs (s :: objs) = unmatched rs objs.
Proof. intros Hin. unfold unmatched. rewrite filter_cons_False; [done|]. by intros []. Qed.

Lemma unmatched_cons_missing rs s objs :
  s ∉ rs -> unmatched rs (s :: objs) = s :: unmatched rs objs.
Proof. intros Hin. unfold unmatched. by rewrite filter_cons_True. Qed.

(** The second loop appends, to the fetched records, one event for each
    request that is not found, in the order of the batch. *)
Lemma add_missing_events_eq rs objs results w :
  add_missing_events rs objs results w
  = Returned (results ++ synthesized (unmatched rs objs) w)
      (after_reads (length (unmatched rs objs)) w).
Proof.
  revert results w. induction objs as [|s rest IH]; intros results w; simpl.
  - unfold ret. by rewrite app_nil_r.
  - destruct (decide (s ∈ rs)) as [Hin|Hin].
    + rewrite unmatched_cons_found by done. apply IH.
    + rewrite unmatched_cons_missing by done.
      unfold bind, call. destruct (read_clocks w) as [[boot wall] w1] eqn:Hclocks.
      rewrite IH. cbn [synthesized length]. rewrite after_reads_succ, Hclocks.
      cbn [fst snd]. by rewrite <- app_assoc.
Qed.

Lemma reconcile_returned (self : BlockingValidatorRunner) objs within_timeout total w rs :
  tflite_settings <$> fetched_at self w = Some <$> rs ->
  reconcile self objs within_timeout total w
  = Returned
      (fetched_at self w
       ++ synthesized (unmatched rs objs)
            (world_at_reconcile self (length objs) within_timeout total w))
      (after_reads (length (unmatched rs objs))
         (world_at_reconcile self (length objs) within_timeout total w)).
Proof.
  unfold reconcile, world_at_reconcile, fetched_at, bind, call, act.
  destruct (GetCompletedResults _ w) as [results w1]. simpl. intros Hrs.
  rewrite (collect_result_settings_complete _ _ _ Hrs).
  apply add_missing_events_eq.
Qed.

Lemma reconcile_null (self : BlockingValidatorRunner) objs within_timeout total w :
  (exists event, event ∈ fetched_at self w /\ tflite_settings event = None) ->
  reconcile self objs within_timeout total w
  = NullDereference (world_at_reconcile self (length objs) within_timeout total w).
Proof.
  unfold reconcile, world_at_reconcile, fetched_at, bind, call, act.
  destruct (GetCompletedResults _ w) as [results w1]. simpl. intros Hnull.
  by rewrite (collect_result_settings_null _ _ Hnull).
Qed.

Lemma reconcile_inv (self : BlockingValidatorRunner) objs within_timeout total w r w' :
  reconcile self objs within_timeout total w = Returned r w' ->
  exists rs,
    tflite_settings <$> fetched_at self w = Some <$> rs
    /\ r = fetched_at self w
           ++ synthesized (unmatched rs objs)
                (world_at_reconcile self (length objs) within_timeout total w)
    /\ w' = after_reads (length (unmatched rs objs))
              (world_at_reconcile self (length objs) within_timeout total w).
Proof.
  intros Hrun.
  destruct (embedded_settings_cases (fetched_at self w)) as [[rs Hrs]|Hnull].
  - rewrite (reconcile_returned _ _ _ _ _ _ Hrs) in Hrun.
    injection Hrun as <- <-. by exists rs.
  - by rewrite (reconcile_null _ _ _ _ _ Hnull) in Hrun.
Qed.

Lemma poll_loop_no_null fuel impl size deadline flag w w' :
  poll_loop fuel impl size deadline flag w ≠ NullDereference w'.
Proof.
  revert flag w. induction fuel as [|fuel IH]; intros flag w; simpl; [done|].
  unfold bind, call, act, ret.
  destruct (GetNumCompletedResults impl w) as [count w1].
  destruct (decide (count < size)); [|done].
  destruct (BootTimeMicros w1) as [now w2].
  destruct (decide (now < deadline)%Z); [apply IH|done].
Qed.

(** A call on a non-empty batch is the loop followed by the
    reconciliation. *)
Lemma TriggerValidation_nonempty fuel (self : BlockingValidatorRunner)
    (for_settings : list TFLiteSettingsT) w :
  for_settings ≠ [] ->
  TriggerValidation fuel self for_settings w
  = match poll_loop fuel (validator_runner_impl_ self) (length for_settings)
            (computed_deadline self for_settings w) true
            (world_at_loop_entry self for_settings w) with
    | Returned within_timeout w_exit =>
        reconcile self for_settings within_timeout
          (total_timeout_ms self (length for_settings)) w_exit
    | NullDereference w' => NullDereference w'
    | OutOfFuel => OutOfFuel
    end.
Proof.
  destruct for_settings as [|s rest]; [done|]. intros _.
  unfold TriggerValidation, bind. rewrite dispatch_and_wait_eq.
  by destruct (poll_loop _ _ _ _ _ _).
Qed.

(** A call on a non-empty batch sees the world it starts in only through
    [unlink]: what the deletion of the storage file forgets, the call
    forgets. *)
Lemma TriggerValidation_after_unlink fuel (self : BlockingValidatorRunner)
    (for_settings : list TFLiteSettingsT) w1 w2 :
  for_settings ≠ [] ->
  unlink (storage_path_ self) w1 = unlink (storage_path_ self) w2 ->
  TriggerValidation fuel self for_settings w1
  = TriggerValidation fuel self for_settings w2.
Proof.
  intros Hne Hunlink. rewrite !TriggerValidation_nonempty by done.
  unfold computed_deadline, dispatch_time, world_at_loop_entry, world_after_dispatch.
  by rewrite Hunlink.
Qed.

(** What a returning call on a non-empty batch returns. *)
Lemma TriggerValidation_returned fuel (self : BlockingValidatorRunner)
    (for_settings : list TFLiteSettingsT) w r w' :
  for_settings ≠ [] ->
  TriggerValidation fuel self for_settings w = Returned r w' ->
  exists within_timeout w_exit rs,
    loop_left fuel self for_settings w within_timeout w_exit
    /\ tflite_settings <$> fetched_at self w_exit = Some <$> rs
    /\ r = fetched_at self w_exit
           ++ synthesized (unmatched rs for_settings)
                (world_at_reconcile self (length for_settings) within_timeout
                   (total_timeout_ms self (length for_settings)) w_exit)
    /\ w' = after_reads (length (unmatched rs for_settings))
              (world_at_reconcile self (length for_settings) within_timeout
                 (total_timeout_ms self (length for_settings)) w_exit).
Proof.
  intros Hne. rewrite TriggerValidation_nonempty by done.
  destruct (poll_loop _ _ _ _ _ _) as [within_timeout w_exit| |] eqn:Hloop;
    try discriminate.
  intros (rs & Hrs & Hr & Hw)%reconcile_inv.
  by exists within_timeout, w_exit, rs.
Qed.

End Reconcile_facts.

(** ** The synthesized events and how records are counted *)
Section Counting_facts.
Context `{Schema} {W : Type} `{!Collaborators W}.
Implicit Types (w : W) (rs objs batch : list TFLiteSettingsT) (s : TFLiteSettingsT).
Implicit Types (records : list BenchmarkEvent).

Lemma length_synthesized objs w : length (synthesized objs w) = length objs.
Proof. revert w. induction objs as [|s rest IH]; intros w; simpl; [done|]. by rewrite IH. Qed.

Lemma synthesized_settings objs w :
  tflite_settings <$> synthesized objs w = Some <$> objs.
Proof.
  revert w. induction objs as [|s rest IH]; intros w; [done|].
  cbn [synthesized]. rewrite !fmap_cons. by rewrite IH.
Qed.

(** The event at position [k] is built from the clocks as they read after
    the [k] events before it. *)
Lemma synthesized_lookup objs w k s :
  objs !! k = Some s ->
  synthesized objs w !! k
  = Some (missing_completion_event s
            (read_clocks (after_reads k w)).1.1
            (read_clocks (after_reads k w)).1.2).
Proof.
  revert w k. induction objs as [|s0 rest IH]; intros w [|k]; try done.
  - by intros [= ->].
  - cbn [synthesized lookup list_lookup]. intros Hk.
    rewrite after_reads_succ. by apply IH.
Qed.

Lemma synthesized_shape objs w :
  Forall2 (fun s event => exists boot wall, event = missing_completion_event s boot wall)
    objs (synthesized objs w).
Proof.
  revert w. induction objs as [|s rest IH]; intros w; cbn [synthesized].
  - constructor.
  - constructor; [by eexists _, _|apply IH].
Qed.

Lemma records_for_app s records1 records2 :
  records_for s (records1 ++ records2)
  = (records_for s records1 + records_for s records2)%nat.
Proof. unfold records_for. by rewrite filter_app, length_app. Qed.

(** The records that carry [s] are counted on their embedded settings. *)
Lemma records_for_settings s records rs :
  tflite_settings <$> records = Some <$> rs ->
  records_for s records = occurrences s rs.
Proof.
  unfold records_for, occurrences.
  revert rs. induction records as [|event rest IH]; intros [|s' rs]; try done.
  rewrite !fmap_cons. intros [= Hevent Hrest].
  destruct (decide (s' = s)) as [->|Hne].
  - rewrite !filter_cons_True by done. simpl. by rewrite (IH rs).
  - rewrite !filter_cons_False by congruence. by apply IH.
Qed.

Lemma occurrences_unmatched_found s rs batch :
  s ∈ rs -> occurrences s (unmatched rs batch) = 0%nat.
Proof.
  intros Hin. unfold occurrences, unmatched.
  induction batch as [|s' rest IH]; [done|].
  destruct (decide (s' ∈ rs)) as [Hin'|Hin'].
  - rewrite (filter_cons_False _ s') by (by intros []). apply IH.
  - rewrite (filter_cons_True _ s') by done.
    rewrite filter_cons_False by (by intros ->). apply IH.
Qed.

Lemma occurrences_unmatched_missing s rs batch :
  s ∉ rs -> occurrences s (unmatched rs batch) = occurrences s batch.
Proof.
  intros Hin. unfold occurrences, unmatched.
  induction batch as [|s' rest IH]; [done|].
  destruct (decide (s' ∈ rs)) as [Hin'|Hin'].
  - rewrite (filter_cons_False _ s') by (by intros []).
    rewrite (filter_cons_False _ s') by (by intros ->). apply IH.
  - rewrite (filter_cons_True _ s') by done.
    destruct (decide (s' = s)) as [->|Hne].
    + rewrite !filter_cons_True by done. simpl. by rewrite IH.
    + rewrite !filter_cons_False by done. apply IH.
Qed.

Lemma occurrences_absent s batch : s ∉ batch -> occurrences s batch = 0%nat.
Proof.
  unfold occurrences. induction batch as [|s' rest IH]; [done|].
  intros Hin. apply not_elem_of_cons in Hin as [Hne Hin].
  rewrite filter_cons_False by congruence. by apply IH.
Qed.

Lemma occurrences_present s batch : s ∈ batch -> (0 < occurrences s batch)%nat.
Proof.
  unfold occurrences. induction batch as [|s' rest IH]; intros Hin.
  - by apply elem_of_nil in Hin.
  - destruct (decide (s' = s)) as [->|Hne].
    + rewrite filter_cons_True by done. simpl. lia.
    + rewrite filter_cons_False by done.
      apply elem_of_cons in Hin as [->|Hin]; [done|]. by apply IH.
Qed.

Lemma occurrences_NoDup s batch : NoDup batch -> s ∈ batch -> occurrences s batch = 1%nat.
Proof.
  induction 1 as [|s' rest Hfresh Hnodup IH]; intros Hin.
  - by apply elem_of_nil in Hin.
  - unfold occurrences. destruct (decide (s' = s)) as [->|Hne].
    + rewrite filter_cons_True by done. simpl.
      fold (occurrences s rest). by rewrite occurrences_absent.
    + rewrite filter_cons_False by done.
      apply elem_of_cons in Hin as [->|Hin]; [done|]. by apply IH.
Qed.

(** When neither side repeats a spec and every fetched spec was asked
    for, the fetched and the unmatched specs add up to the batch. *)
Lemma matched_and_unmatched_length rs batch :
  NoDup batch -> NoDup rs -> rs ⊆ batch ->
  (length rs + length (unmatched rs batch) = length batch)%nat.
Proof.
  intros Hbatch Hrs Hsub.
  assert (Hperm : filter (fun s => s ∈ rs) batch ≡ₚ rs).
  { apply NoDup_Permutation; [by apply NoDup_filter|done|].
    intros s. rewrite list_elem_of_filter. split; [by intros []|].
    intros Hin. split; [done|by apply Hsub]. }
  rewrite <- (Permutation_length (filter_app_complement (fun s => s ∈ rs) batch)).
  rewrite length_app. by rewrite (Permutation_length Hperm).
Qed.

Lemma occurrences_Permutation s batch1 batch2 :
  batch1 ≡ₚ batch2 -> occurrences s batch1 = occurrences s batch2.
Proof. intros Hperm. unfold occurrences. by rewrite Hperm. Qed.

Lemma occurrences_app s batch1 batch2 :
  occurrences s (batch1 ++ batch2)
  = (occurrences s batch1 + occurrences s batch2)%nat.
Proof. unfold occurrences. by rewrite filter_app, length_app. Qed.

Lemma occurrences_cons s s' batch :
  occurrences s (s' :: batch)
  = ((if decide (s' = s) then 1 else 0) + occurrences s batch)%nat.
Proof.
  unfold occurrences. destruct (decide (s' = s)) as [Heq|Hne].
  - by rewrite filter_cons_True.
  - by rewrite filter_cons_False.
Qed.

(** Every request is found or not found. *)
Lemma batch_splits rs batch :
  (length (matched rs batch) + length (unmatched rs batch) = length batch)%nat.
Proof.
  unfold matched, unmatched. rewrite <- length_app.
  apply Permutation_length, filter_app_complement.
Qed.

Lemma matched_own rs : matched rs rs = rs.
Proof.
  unfold matched.
  assert (Hall : forall l : list TFLiteSettingsT,
            (forall s, s ∈ l -> s ∈ rs) -> filter (fun s => s ∈ rs) l = l).
  { induction l as [|s l IH]; intros Hin; [done|].
    rewrite filter_cons_True by (apply Hin; left).
    f_equal. apply IH. intros s' Hs'. apply Hin. by right. }
  by apply Hall.
Qed.

(** Fetched specs that for no spec outnumber the requests can each be set
    against a request of their own: the batch is, up to order, the
    fetched specs and a remainder. *)
Lemma answered_requests rs batch :
  (forall s, (occurrences s rs <= occurrences s batch)%nat) ->
  exists remainder, batch ≡ₚ rs ++ remainder.
Proof.
  revert batch. induction rs as [|a rs IH]; intros batch Hle.
  { by exists batch. }
  assert (Hin : a ∈ batch).
  { destruct (decide (a ∈ batch)) as [Hin|Hout]; [done|].
    specialize (Hle a). rewrite (occurrences_absent a batch Hout) in Hle.
    rewrite occurrences_cons, decide_True in Hle by done. lia. }
  apply elem_of_Permutation in Hin as [batch' Hbatch].
  destruct (IH batch') as [remainder Hrest].
  { intros s. specialize (Hle s).
    rewrite (occurrences_Permutation s _ _ Hbatch), !occurrences_cons in Hle. lia. }
  exists remainder. by rewrite Hbatch, Hrest.
Qed.

(** When no spec has more fetched records than requests, the fetched
    records are at most as many as the requests they answer, and fewer
    exactly when some fetched spec has more requests than records. *)
Lemma length_against_batch rs batch :
  (forall s, (occurrences s rs <= occurrences s batch)%nat) ->
  (length rs <= length (matched rs batch))%nat
  /\ ((length rs < length (matched rs batch))%nat
      <-> exists s, s ∈ rs /\ (occurrences s rs < occurrences s batch)%nat).
Proof.
  intros Hle. destruct (answered_requests rs batch Hle) as [remainder Hbatch].
  assert (Hlen : length (matched rs batch)
                 = (length rs + length (matched rs remainder))%nat).
  { unfold matched. rewrite Hbatch, filter_app, length_app.
    fold (matched rs rs). by rewrite matched_own. }
  rewrite Hlen. split; [lia|]. split.
  - intros Hlt. destruct (matched rs remainder) as [|s rest] eqn:Hm; [simpl in Hlt; lia|].
    assert (Hs : s ∈ matched rs remainder) by (rewrite Hm; left).
    unfold matched in Hs. apply list_elem_of_filter in Hs as [Hrs Hrem].
    exists s. split; [done|].
    rewrite (occurrences_Permutation s _ _ Hbatch), occurrences_app.
    pose proof (occurrences_present s remainder Hrem). lia.
  - intros (s & Hrs & Hlt).
    rewrite (occurrences_Permutation s _ _ Hbatch), occurrences_app in Hlt.
    assert (Hrem : s ∈ remainder).
    { destruct (decide (s ∈ remainder)) as [Hin|Hout]; [done|].
      rewrite (occurrences_absent s remainder Hout) in Hlt. lia. }
    assert (Hs : s ∈ matched rs remainder) by (by apply list_elem_of_filter).
    destruct (matched rs remainder); [by apply elem_of_nil in Hs|simpl; lia].
Qed.

End Counting_facts.

(** ** What a call returns *)
Section Call_facts.
Context `{Schema} {W : Type} `{!Collaborators W}.
Implicit Types (w : W) (rs : list TFLiteSettingsT) (s : TFLiteSettingsT).
Implicit Types (self : BlockingValidatorRunner) (for_settings : list TFLiteSettingsT).

(** Where the loop was left and every fetched record embeds settings, the
    call returns the fetched records followed by the synthesized ones. *)
Lemma TriggerValidation_returns fuel self for_settings w within_timeout w_exit rs :
  for_settings ≠ [] ->
  loop_left fuel self for_settings w within_timeout w_exit ->
  tflite_settings <$> fetched_at self w_exit = Some <$> rs ->
  TriggerValidation fuel self for_settings w
  = Returned
      (fetched_at self w_exit
       ++ synthesized (unmatched rs for_settings)
            (world_at_reconcile self (length for_settings) within_timeout
               (total_timeout_ms self (length for_settings)) w_exit))
      (after_reads (length (unmatched rs for_settings))
         (world_at_reconcile self (length for_settings) within_timeout
            (total_timeout_ms self (length for_settings)) w_exit)).
Proof.
  intros Hne Hloop Hrs. rewrite TriggerValidation_nonempty by done.
  unfold loop_left in Hloop. rewrite Hloop. by apply reconcile_returned.
Qed.

Lemma unmatched_middle rs (before after : list TFLiteSettingsT) s :
  s ∉ rs ->
  unmatched rs (before ++ s :: after) !! length (unmatched rs before) = Some s.
Proof.
  intros Hs. unfold unmatched. rewrite filter_app, filter_cons_True by done.
  by apply list_lookup_middle.
Qed.

Lemma unmatched_lookup rs for_settings i s :
  for_settings !! i = Some s -> s ∉ rs ->
  unmatched rs for_settings !! length (unmatched rs (take i for_settings)) = Some s.
Proof.
  intros Hi Hs.
  pose proof (unmatched_middle rs (take i for_settings) (drop (S i) for_settings) s Hs)
    as Hmiddle.
  by rewrite (take_drop_middle for_settings i s Hi) in Hmiddle.
Qed.

(** C8.  Whenever the loop of a call on a non-empty batch is left and the
    fetched records embed settings, the call returns the fetched sequence,
    in fetch order, followed by the synthesized missing-completion
    records, one for each request that matches no fetched record, in the
    order of these requests in the batch: every synthesized record comes
    after every fetched one. *)
Theorem synthesized_follow_fetched fuel self for_settings w within_timeout w_exit rs :
  for_settings ≠ [] ->
  loop_left fuel self for_settings w within_timeout w_exit ->
  tflite_settings <$> fetched_at self w_exit = Some <$> rs ->
  exists synth w',
    TriggerValidation fuel self for_settings w
      = Returned (fetched_at self w_exit ++ synth) w'
    /\ Forall2
         (fun s event => exists boot wall, event = missing_completion_event s boot wall)
         (unmatched rs for_settings) synth.
Proof.
  intros Hne Hloop Hrs. eexists _, _. split.
  - by apply TriggerValidation_returns.
  - apply synthesized_shape.
Qed.

(** C3.  Whenever the loop of a call on a non-empty batch is left and the
    fetched records embed settings, the call returns, whatever number of
    requests is unmatched; and for every request of the batch whose
    settings equal those of no fetched record, the returned sequence
    holds, after the fetched records and at the rank of the request among
    the unmatched ones, a record of type ERROR with no result, an error
    of stage UNKNOWN and code kMinibenchmarkCompletionEventMissing, the
    settings of the request, and as timestamps the boot and wall clocks
    as read when that record is built. *)
Theorem missing_completion_is_synthesized fuel self for_settings w within_timeout
    w_exit rs :
  for_settings ≠ [] ->
  loop_left fuel self for_settings w within_timeout w_exit ->
  tflite_settings <$> fetched_at self w_exit = Some <$> rs ->
  exists r w',
    TriggerValidation fuel self for_settings w = Returned r w'
    /\ forall i s,
        for_settings !! i = Some s -> s ∉ rs ->
        let k := length (unmatched rs (take i for_settings)) in
        let w_built :=
          after_reads k
            (world_at_reconcile self (length for_settings) within_timeout
               (total_timeout_ms self (length for_settings)) w_exit) in
        r !! (length (fetched_at self w_exit) + k)%nat
        = Some (CreateBenchmarkEvent (Some s) BenchmarkEventType_ERROR None
                  (Some (CreateBenchmarkError BenchmarkStage_UNKNOWN
                           kMinibenchmarkCompletionEventMissing))
                  (BootTimeMicros w_built).1
                  (WallTimeMicros (BootTimeMicros w_built).2).1).
Proof.
  intros Hne Hloop Hrs. eexists _, _. split.
  - by apply TriggerValidation_returns.
  - intros i s Hi Hs k w_built.
    rewrite lookup_app_r by lia.
    replace (length (fetched_at self w_exit) + k - length (fetched_at self w_exit))%nat
      with k by lia.
    rewrite (synthesized_lookup _ _ k s) by (by apply unmatched_lookup).
    unfold missing_completion_event, read_clocks. fold w_built.
    clearbody w_built. destruct (BootTimeMicros w_built) as [boot w1]. simpl.
    by destruct (WallTimeMicros w1) as [wall w2].
Qed.

(** C1, amended.  Whenever the loop of a call on a non-empty batch is
    left and the fetched records embed settings, the call returns the
    fetched records followed by one synthesized missing-completion record
    for each request that matches no fetched record.  So every requested
    spec is carried by at least one returned record, and the returned
    length is the number of fetched records plus the number of unmatched
    requests.  That length is N, with exactly one record for each
    requested spec, when the batch holds no spec twice and the fetched
    records carry pairwise distinct specs of the batch. *)
Theorem one_record_per_distinct_spec fuel self for_settings w within_timeout w_exit rs :
  for_settings ≠ [] ->
  loop_left fuel self for_settings w within_timeout w_exit ->
  tflite_settings <$> fetched_at self w_exit = Some <$> rs ->
  exists r w',
    TriggerValidation fuel self for_settings w = Returned r w'
    /\ (forall s, s ∈ for_settings ->
          exists event, event ∈ r /\ tflite_settings event = Some s)
    /\ length r
       = (length (fetched_at self w_exit) + length (unmatched rs for_settings))%nat
    /\ (NoDup for_settings -> NoDup rs -> rs ⊆ for_settings ->
        length r = length for_settings
        /\ forall s, s ∈ for_settings -> records_for s r = 1%nat).
Proof.
  intros Hne Hloop Hrs. eexists _, _. split; [by apply TriggerValidation_returns|].
  set (w_rec := world_at_reconcile _ _ _ _ _).
  assert (Hlen : length (fetched_at self w_exit) = length rs).
  { rewrite <- (length_fmap tflite_settings), Hrs. apply length_fmap. }
  split; [|split].
  - intros s Hs. destruct (decide (s ∈ rs)) as [Hin|Hin].
    + assert (Hsome : Some s ∈ tflite_settings <$> fetched_at self w_exit).
      { rewrite Hrs. by apply list_elem_of_fmap_2. }
      apply list_elem_of_fmap in Hsome as (event & Hevent & Hfetched).
      exists event. split; [|done]. apply elem_of_app. by left.
    + assert (Hsome : Some s ∈ tflite_settings <$> synthesized (unmatched rs for_settings) w_rec).
      { rewrite synthesized_settings. apply list_elem_of_fmap_2.
        unfold unmatched. by apply list_elem_of_filter. }
      apply list_elem_of_fmap in Hsome as (event & Hevent & Hsynth).
      exists event. split; [|done]. apply elem_of_app. by right.
  - by rewrite length_app, length_synthesized.
  - intros Hbatch Hnodup Hsub. split.
    + rewrite length_app, length_synthesized, Hlen.
      by apply matched_and_unmatched_length.
    + intros s Hs. rewrite records_for_app, (records_for_settings s _ rs Hrs).
      rewrite (records_for_settings s _ _ (synthesized_settings _ w_rec)).
      destruct (decide (s ∈ rs)) as [Hin|Hin].
      * rewrite occurrences_unmatched_found by done.
        rewrite occurrences_NoDup by done. lia.
      * rewrite occurrences_unmatched_missing by done.
        rewrite (occurrences_absent s rs) by done.
        by rewrite occurrences_NoDup.
Qed.

(** C2, amended.  Requests with equal settings are all matched against
    the same fetched records.  Whenever the loop of a call on a non-empty
    batch of N requests is left and the fetched records embed settings,
    the call returns M + U records, M being the number of fetched records
    and U the number of requests whose settings no fetched record
    carries.  For a spec that no fetched record carries, the returned
    records carrying it are as many as its occurrences in the batch: each
    occurrence has a synthesized record of its own.  For a spec that some
    fetched record carries, they are the fetched records carrying it and
    no more, however often the spec occurs in the batch.  Against N, the
    length is N + M less the number of requests whose settings some
    fetched record carries.  When no spec has more fetched records than
    occurrences in the batch, the length is at most N, and it is below N
    exactly when some spec has a fetched record but fewer fetched records
    than occurrences. *)
Theorem equal_requests_share_fetched_records fuel self for_settings w within_timeout
    w_exit rs :
  for_settings ≠ [] ->
  loop_left fuel self for_settings w within_timeout w_exit ->
  tflite_settings <$> fetched_at self w_exit = Some <$> rs ->
  exists r w',
    TriggerValidation fuel self for_settings w = Returned r w'
    /\ length r
       = (length (fetched_at self w_exit) + length (unmatched rs for_settings))%nat
    /\ (forall s,
          (s ∉ rs -> records_for s r = occurrences s for_settings)
          /\ (s ∈ rs ->
              records_for s r = records_for s (fetched_at self w_exit)
              /\ records_for s r = occurrences s rs))
    /\ (length r + length (matched rs for_settings)
        = length (fetched_at self w_exit) + length for_settings)%nat
    /\ ((forall s,
           (records_for s (fetched_at self w_exit) <= occurrences s for_settings)%nat) ->
        (length r <= length for_settings)%nat
        /\ ((length r < length for_settings)%nat
            <-> exists s,
                  s ∈ rs
                  /\ (records_for s (fetched_at self w_exit)
                      < occurrences s for_settings)%nat)).
Proof.
  intros Hne Hloop Hrs. eexists _, _. split; [by apply TriggerValidation_returns|].
  set (w_rec := world_at_reconcile _ _ _ _ _).
  assert (Hlen : length (fetched_at self w_exit) = length rs).
  { rewrite <- (length_fmap tflite_settings), Hrs. apply length_fmap. }
  pose proof (batch_splits rs for_settings) as Hsplit.
  split; [by rewrite length_app, length_synthesized|]. split.
  { intros s. rewrite records_for_app, (records_for_settings s _ rs Hrs).
    rewrite (records_for_settings s _ _ (synthesized_settings _ w_rec)).
    split; intros Hin.
    - rewrite occurrences_unmatched_missing by done.
      by rewrite (occurrences_absent s rs).
    - rewrite occurrences_unmatched_found by done. lia. }
  rewrite length_app, length_synthesized. split; [lia|].
  intros Hfew.
  assert (Hle : forall s, (occurrences s rs <= occurrences s for_settings)%nat).
  { intros s. rewrite <- (records_for_settings s _ rs Hrs). apply Hfew. }
  destruct (length_against_batch rs for_settings Hle) as [Hmost Hbelow].
  split; [lia|]. rewrite <- Hsplit, Hlen. split.
  - intros Hlt. destruct Hbelow as [Hbelow _].
    destruct Hbelow as (s & Hs & Hcount); [lia|].
    exists s. split; [done|]. by rewrite (records_for_settings s _ rs Hrs).
  - intros (s & Hs & Hcount). destruct Hbelow as [_ Hbelow].
    rewrite (records_for_settings s _ rs Hrs) in Hcount.
    assert (length rs < length (matched rs for_settings))%nat; [|lia].
    apply Hbelow. by exists s.
Qed.

(** C10.  The loop over the fetched records reads the embedded settings
    of each through the pointer [tflite_settings()] without testing it.
    When the loop of a call on a non-empty batch is left: if every
    fetched record embeds settings, the extraction yields them all, in
    order, and the call returns; if some fetched record embeds none, the
    call stops at the dereference of a null pointer. *)
Theorem embedded_settings_are_required fuel self for_settings w within_timeout w_exit :
  for_settings ≠ [] ->
  loop_left fuel self for_settings w within_timeout w_exit ->
  let w_rec :=
    world_at_reconcile self (length for_settings) within_timeout
      (total_timeout_ms self (length for_settings)) w_exit in
  ((forall event, event ∈ fetched_at self w_exit -> is_Some (tflite_settings event)) ->
   exists rs r w',
     tflite_settings <$> fetched_at self w_exit = Some <$> rs
     /\ collect_result_settings (fetched_at self w_exit) w_rec = Returned rs w_rec
     /\ TriggerValidation fuel self for_settings w = Returned r w')
  /\ ((exists event, event ∈ fetched_at self w_exit /\ tflite_settings event = None) ->
      collect_result_settings (fetched_at self w_exit) w_rec = NullDereference w_rec
      /\ TriggerValidation fuel self for_settings w = NullDereference w_rec).
Proof.
  intros Hne Hloop w_rec. split.
  - intros Hall.
    destruct (embedded_settings_cases (fetched_at self w_exit))
      as [[rs Hrs]|(event & Hin & Hnone)].
    + exists rs. eexists _, _. split; [done|]. split.
      * by apply collect_result_settings_complete.
      * by apply TriggerValidation_returns.
    + destruct (Hall event Hin) as [s Hs]. congruence.
  - intros Hnull. split; [by apply collect_result_settings_null|].
    rewrite TriggerValidation_nonempty by done.
    unfold loop_left in Hloop. rewrite Hloop. by apply reconcile_null.
Qed.

(** C4, amended.  For a non-empty batch of size N the loop of the call
    runs against the deadline [computed_deadline]; that deadline is the
    reading of the boot clock taken after the dispatch plus
    perTestTimeout * (1 + N) * 1000, reduced to a signed 64-bit integer;
    it is exactly that sum whenever the product in microseconds and the
    sum fit in a signed 64-bit integer. *)
Theorem deadline_exact_in_range self for_settings w :
  for_settings ≠ [] ->
  let exact :=
    (per_test_timeout_ms_ self * (1 + Z.of_nat (length for_settings)) * 1000)%Z in
  (forall fuel,
      TriggerValidation fuel self for_settings w
      = match poll_loop fuel (validator_runner_impl_ self) (length for_settings)
                (computed_deadline self for_settings w) true
                (world_at_loop_entry self for_settings w) with
        | Returned within_timeout w_exit =>
            reconcile self for_settings within_timeout
              (total_timeout_ms self (length for_settings)) w_exit
        | NullDereference w' => NullDereference w'
        | OutOfFuel => OutOfFuel
        end)
  /\ computed_deadline self for_settings w
     = Int64.wrap_s64 (dispatch_time self for_settings w + exact)
  /\ (Int64.fits_s64 exact ->
      Int64.fits_s64 (dispatch_time self for_settings w + exact) ->
      total_timeout_ms self (length for_settings)
        = (per_test_timeout_ms_ self * (1 + Z.of_nat (length for_settings)))%Z
      /\ computed_deadline self for_settings w
        = (dispatch_time self for_settings w + exact)%Z).
Proof.
  intros Hne exact.
  assert (Hwrap : computed_deadline self for_settings w
                  = Int64.wrap_s64 (dispatch_time self for_settings w + exact)).
  { unfold computed_deadline.
    apply deadline_us_wrap. symmetry. apply total_timeout_ms_wrap. }
  split; [intros fuel; by apply TriggerValidation_nonempty|].
  split; [exact Hwrap|]. intros Hexact Hsum. split.
  - rewrite total_timeout_ms_wrap. apply wrap_s64_fits.
    unfold Int64.fits_s64, Int64.half_modulus in *. subst exact. lia.
  - rewrite Hwrap. by apply wrap_s64_fits.
Qed.

End Call_facts.

(** In the scenario: two settings, one second each, dispatched at boot
    time 5 s, give a deadline at 8 s. *)
Lemma deadline_exact_in_range_witness :
  computed_deadline Scenario.runner (Scenario.batch ["cpu"; "gpu"])
    (Scenario.world_with [] [])
  = 8000000%Z.
Proof.
  pose proof (deadline_exact_in_range Scenario.runner
                (Scenario.batch ["cpu"; "gpu"]) (Scenario.world_with [] [])) as Hd.
  destruct Hd as (_ & _ & Hd); [discriminate|].
  destruct Hd as [_ Hd]; [vm_compute; split; [discriminate|reflexivity]..|].
  exact Hd.
Defined.

(** C4 as stated fails when the product leaves 64 bits: with a per-test
    timeout of 2^30 ms and a batch of 2^34 - 1 settings the product
    2^30 * 2^34 is 0 in [size_t], so the deadline is the dispatch time
    itself, not the dispatch time plus 2^64 * 1000. *)
Lemma deadline_wraps_on_huge_batch :
  let self := new_BlockingValidatorRunner (Scenario.options_with "" 3 1073741824) in
  let batch := replicate (Z.to_nat 17179869183) (Scenario.settings "cpu") in
  let w := Scenario.world_with [] [] in
  dispatch_time self batch w = 5000000%Z
  /\ (per_test_timeout_ms_ self * (1 + Z.of_nat (length batch)) * 1000
      = 18446744073709551616000)%Z
  /\ computed_deadline self batch w = 5000000%Z
  /\ computed_deadline self batch w
     ≠ (dispatch_time self batch w
        + per_test_timeout_ms_ self * (1 + Z.of_nat (length batch)) * 1000)%Z.
Proof.
  intros self batch w.
  assert (Hlen : Z.of_nat (length batch) = 17179869183%Z).
  { unfold batch. rewrite length_replicate. by rewrite Z2Nat.id. }
  assert (Htime : dispatch_time self batch w = 5000000%Z) by reflexivity.
  assert (Hdead : computed_deadline self batch w = 5000000%Z).
  { unfold computed_deadline. rewrite Htime.
    unfold total_timeout_ms. rewrite Hlen. reflexivity. }
  split; [exact Htime|]. split; [by rewrite Hlen|].
  split; [exact Hdead|].
  rewrite Hdead, Htime, Hlen. discriminate.
Qed.

(** ** The poll loop *)
Section Loop_facts.
Context `{Schema} {W : Type} `{!Collaborators W}.
Implicit Types (w : W) (impl : ValidatorRunnerImpl).

(** One test of the loop condition, by cases. *)
Lemma poll_loop_done fuel impl size deadline flag w :
  (size <= count_read impl w)%nat ->
  poll_loop (S fuel) impl size deadline flag w
  = Returned flag (GetNumCompletedResults impl w).2.
Proof.
  unfold count_read. cbn [poll_loop]. unfold bind, call, act, ret.
  destruct (GetNumCompletedResults impl w) as [count w1].
  cbn beta iota delta [fst snd]. intros Hcount.
  destruct (decide (count < size)%nat); [lia|done].
Qed.

Lemma poll_loop_timed_out fuel impl size deadline flag w :
  (count_read impl w < size)%nat -> (deadline <= clock_read impl w)%Z ->
  poll_loop (S fuel) impl size deadline flag w
  = Returned false (BootTimeMicros (GetNumCompletedResults impl w).2).2.
Proof.
  unfold count_read, clock_read. cbn [poll_loop]. unfold bind, call, act, ret.
  destruct (GetNumCompletedResults impl w) as [count w1].
  cbn beta iota delta [fst snd]. intros Hcount.
  destruct (decide (count < size)%nat); [|lia].
  destruct (BootTimeMicros w1) as [now w2].
  cbn beta iota delta [fst snd]. intros Hnow.
  destruct (decide (now < deadline)%Z); [lia|done].
Qed.

Lemma poll_loop_sleeps fuel impl size deadline flag w :
  (count_read impl w < size)%nat -> (clock_read impl w < deadline)%Z ->
  poll_loop (S fuel) impl size deadline flag w
  = poll_loop fuel impl size deadline true (world_after_sleep impl w).
Proof.
  unfold count_read, clock_read, world_after_sleep. cbn [poll_loop].
  unfold bind, call, act, ret.
  destruct (GetNumCompletedResults impl w) as [count w1].
  cbn beta iota delta [fst snd]. intros Hcount.
  destruct (decide (count < size)%nat); [|lia].
  destruct (BootTimeMicros w1) as [now w2].
  cbn beta iota delta [fst snd]. intros Hnow.
  destruct (decide (now < deadline)%Z); [done|lia].
Qed.

(** With fuel for a single test, the loop returns exactly when that test
    leaves it. *)
Lemma poll_loop_single_test impl size deadline flag w :
  exit_condition impl size deadline w
  <-> exists within_timeout w', poll_loop 1 impl size deadline flag w
                                = Returned within_timeout w'.
Proof.
  unfold exit_condition. split.
  - intros [Hcount|Hnow].
    + eexists _, _. by apply poll_loop_done.
    + destruct (decide (size <= count_read impl w)%nat) as [Hcount|Hcount].
      * eexists _, _. by apply poll_loop_done.
      * eexists _, _. apply poll_loop_timed_out; [lia|done].
  - intros (within_timeout & w' & Hrun).
    destruct (decide (size <= count_read impl w)%nat) as [Hcount|Hcount]; [by left|].
    destruct (decide (deadline <= clock_read impl w)%Z) as [Hnow|Hnow]; [by right|].
    rewrite poll_loop_sleeps in Hrun by lia. discriminate.
Qed.

(** More fuel does not change what the loop returns. *)
Lemma poll_loop_fuel_monotone fuel fuel' impl size deadline flag w within_timeout w' :
  (fuel <= fuel')%nat ->
  poll_loop fuel impl size deadline flag w = Returned within_timeout w' ->
  poll_loop fuel' impl size deadline flag w = Returned within_timeout w'.
Proof.
  revert fuel' flag w. induction fuel as [|fuel IH]; intros fuel' flag w Hle; [done|].
  destruct fuel' as [|fuel']; [lia|].
  destruct (decide (size <= count_read impl w)%nat) as [Hcount|Hcount].
  { by rewrite !poll_loop_done. }
  destruct (decide (deadline <= clock_read impl w)%Z) as [Hnow|Hnow].
  { by rewrite !poll_loop_timed_out by (done || lia). }
  rewrite !poll_loop_sleeps by lia. apply IH. lia.
Qed.

Section Advancing.
Context `{!AdvancingClock W}.

Lemma sleep_brings_deadline_closer impl w :
  (boot_now w < boot_now (world_after_sleep impl w))%Z
  /\ (boot_now w <= clock_read impl w)%Z.
Proof.
  unfold world_after_sleep, clock_read.
  pose proof (count_read_monotone impl w) as Hcount.
  pose proof (boot_read_monotone (GetNumCompletedResults impl w).2) as Hread.
  pose proof (sleep_advances (ToInt64Microseconds kWaitBetweenRefresh)
                (BootTimeMicros (GetNumCompletedResults impl w).2).2) as Hsleep.
  unfold boot_now in *. specialize (Hsleep eq_refl). lia.
Qed.

(** Under an advancing clock the loop is left, from any world, for any
    size and deadline: the distance to the deadline shrinks with every
    sleep. *)
Lemma poll_loop_terminates impl size deadline flag w :
  exists fuel within_timeout w',
    poll_loop fuel impl size deadline flag w = Returned within_timeout w'.
Proof.
  remember (Z.to_nat (deadline - boot_now w)) as distance eqn:Hdistance.
  revert flag w Hdistance.
  induction distance as [distance IH] using lt_wf_ind. intros flag w ->.
  destruct (decide (size <= count_read impl w)%nat) as [Hcount|Hcount].
  { exists 1%nat. eexists _, _. by apply poll_loop_done. }
  destruct (decide (deadline <= clock_read impl w)%Z) as [Hnow|Hnow].
  { exists 1%nat. eexists _, _. apply poll_loop_timed_out; [lia|done]. }
  destruct (sleep_brings_deadline_closer impl w) as [Hcloser Hread].
  destruct (IH (Z.to_nat (deadline - boot_now (world_after_sleep impl w))))
    with (flag := true) (w := world_after_sleep impl w)
    as (fuel & within_timeout & w' & Hrun); [lia|done|].
  exists (S fuel), within_timeout, w'.
  rewrite poll_loop_sleeps by lia. exact Hrun.
Qed.

(** C5.  Under a clock that advances strictly across each sleep (and
    never goes back across a read), the poll loop of a call on a
    non-empty batch of size N is left after finitely many tests, whatever
    the counts it reads, even if the count stays at zero, and the call
    does not run forever.  Each test leaves the loop exactly when the
    count read is at least N or the clock read after it has reached the
    deadline of the call: in the first case with the flag unchanged and
    without reading the clock, in the second with the flag cleared;
    otherwise the loop sleeps and tests again. *)
Theorem poll_loop_exits (self : BlockingValidatorRunner)
    (for_settings : list TFLiteSettingsT) w :
  for_settings ≠ [] ->
  let impl := validator_runner_impl_ self in
  let size := length for_settings in
  let deadline := computed_deadline self for_settings w in
  (exists fuel within_timeout w_exit,
      loop_left fuel self for_settings w within_timeout w_exit)
  /\ (exists fuel, TriggerValidation fuel self for_settings w ≠ OutOfFuel)
  /\ forall fuel flag w0,
      ((size <= count_read impl w0)%nat ->
       poll_loop (S fuel) impl size deadline flag w0
       = Returned flag (GetNumCompletedResults impl w0).2)
      /\ ((count_read impl w0 < size)%nat -> (deadline <= clock_read impl w0)%Z ->
          poll_loop (S fuel) impl size deadline flag w0
          = Returned false (BootTimeMicros (GetNumCompletedResults impl w0).2).2)
      /\ ((count_read impl w0 < size)%nat -> (clock_read impl w0 < deadline)%Z ->
          poll_loop (S fuel) impl size deadline flag w0
          = poll_loop fuel impl size deadline true (world_after_sleep impl w0))
      /\ (exit_condition impl size deadline w0
          <-> exists within_timeout w', poll_loop 1 impl size deadline flag w0
                                        = Returned within_timeout w').
Proof.
  intros Hne impl size deadline.
  destruct (poll_loop_terminates impl size deadline true
              (world_at_loop_entry self for_settings w))
    as (fuel & within_timeout & w_exit & Hloop).
  split; [by exists fuel, within_timeout, w_exit|]. split.
  - exists fuel. rewrite TriggerValidation_nonempty by done.
    fold impl size deadline. rewrite Hloop.
    destruct (embedded_settings_cases (fetched_at self w_exit)) as [[rs Hrs]|Hnull].
    + by rewrite (reconcile_returned _ _ _ _ _ _ Hrs).
    + by rewrite (reconcile_null _ _ _ _ _ Hnull).
  - intros fuel' flag w0. split; [apply poll_loop_done|].
    split; [apply poll_loop_timed_out|].
    split; [apply poll_loop_sleeps|apply poll_loop_single_test].
Qed.

End Advancing.
End Loop_facts.

(** Against a clock that stands still and an engine that stays silent the
    loop is never left: the advance of the clock cannot be dropped. *)
Lemma frozen_clock_never_exits `{Schema} (status : MinibenchmarkStatus) fuel impl size
    deadline flag :
  (0 < size)%nat -> (0 < deadline)%Z ->
  @poll_loop _ unit (frozen_collaborators status) fuel impl size deadline flag tt
  = OutOfFuel.
Proof.
  intros Hsize Hdeadline. revert flag.
  induction fuel as [|fuel IH]; intros flag; [done|].
  cbn [poll_loop]. unfold bind, call, act. cbn.
  destruct (decide (0 < size)%nat); [|lia].
  destruct (decide (0 < deadline)%Z); [apply IH|lia].
Qed.

(** ** The modelled world *)
Section World_facts.
Context `{Schema}.
Implicit Types (w : World) (impl : ValidatorRunnerImpl) (path : string).

#[export] Instance world_advancing_clock : AdvancingClock World.
Proof.
  split.
  - intros w. unfold boot_now. simpl. lia.
  - intros impl w. unfold boot_now. simpl. lia.
  - intros d w Hd. unfold boot_now. simpl. unfold world_sleep.
    destruct (script w) as [|step later]; simpl; lia.
Qed.

Lemma world_after_sleep_eq impl w :
  world_after_sleep impl w
  = world_sleep (ToInt64Microseconds kWaitBetweenRefresh)
      (record_call CallBootTime
         (record_call (CallGetNum (impl_storage_path impl)) w)).
Proof. reflexivity. Qed.

Lemma stored_after_sleep impl w :
  engine_target w = Some (impl_storage_path impl) ->
  stored (impl_storage_path impl) (world_after_sleep impl w)
  = stored (impl_storage_path impl) w ++ written_during 1 w.
Proof.
  intros Htarget. rewrite world_after_sleep_eq. unfold world_sleep, written_during.
  cbn [script record_call]. destruct (script w) as [|step later].
  - cbn. by rewrite app_nil_r.
  - unfold stored at 1. cbn [files record_call]. unfold engine_writes.
    cbn [engine_target record_call]. rewrite Htarget.
    rewrite lookup_insert_eq. cbn. by rewrite app_nil_r.
Qed.

Lemma written_during_succ k impl w :
  written_during (S k) w
  = written_during 1 w ++ written_during k (world_after_sleep impl w).
Proof.
  rewrite world_after_sleep_eq. unfold written_during, world_sleep.
  cbn [script record_call]. destruct (script w) as [|step later]; cbn.
  - by rewrite take_nil.
  - by rewrite app_nil_r.
Qed.

Lemma calls_after_sleep impl w :
  calls (world_after_sleep impl w)
  = calls w ++ [CallGetNum (impl_storage_path impl); CallBootTime;
                CallSleep (ToInt64Microseconds kWaitBetweenRefresh)].
Proof.
  rewrite world_after_sleep_eq. unfold world_sleep. cbn [script record_call].
  destruct (script w); cbn; by rewrite <- !app_assoc.
Qed.

Lemma engine_target_after_sleep impl w :
  engine_target (world_after_sleep impl w) = engine_target w.
Proof.
  rewrite world_after_sleep_eq. unfold world_sleep. cbn [script record_call].
  by destruct (script w).
Qed.

(** What the loop does to the modelled world: the storage file grows by
    what the engine writes during the sleeps of the loop, and nothing is
    deleted or dispatched. *)
Lemma world_poll_loop fuel impl size deadline flag w within_timeout w' :
  engine_target w = Some (impl_storage_path impl) ->
  poll_loop fuel impl size deadline flag w = Returned within_timeout w' ->
  exists k later,
    stored (impl_storage_path impl) w'
      = stored (impl_storage_path impl) w ++ written_during k w
    /\ calls w' = calls w ++ later
    /\ Forall (fun c => resets_or_dispatches c = false) later.
Proof.
  revert flag w. induction fuel as [|fuel IH]; intros flag w Htarget; [done|].
  destruct (decide (size <= count_read impl w)%nat) as [Hcount|Hcount].
  { rewrite poll_loop_done by done. intros [= <- <-].
    exists 0%nat, [CallGetNum (impl_storage_path impl)].
    split; [|split]; [|done|by repeat constructor].
    unfold written_during. cbn. by rewrite app_nil_r. }
  destruct (decide (deadline <= clock_read impl w)%Z) as [Hnow|Hnow].
  { rewrite poll_loop_timed_out by (done || lia). intros [= <- <-].
    exists 0%nat, [CallGetNum (impl_storage_path impl); CallBootTime].
    split; [|split]; [| |by repeat constructor].
    - unfold written_during. cbn. by rewrite app_nil_r.
    - cbn. by rewrite <- app_assoc. }
  rewrite poll_loop_sleeps by lia. intros Hrun.
  apply IH in Hrun as (k & later & Hstored & Hcalls & Hlater);
    [|by rewrite engine_target_after_sleep].
  exists (S k),
    ([CallGetNum (impl_storage_path impl); CallBootTime;
      CallSleep (ToInt64Microseconds kWaitBetweenRefresh)] ++ later).
  split; [|split].
  - rewrite Hstored, stored_after_sleep by done.
    rewrite (written_during_succ k impl). by rewrite <- app_assoc.
  - rewrite Hcalls, calls_after_sleep. by rewrite <- app_assoc.
  - apply Forall_app. split; [by repeat constructor|done].
Qed.

Lemma world_after_reads k w :
  files (after_reads k w) = files w
  /\ exists later,
       calls (after_reads k w) = calls w ++ later
       /\ Forall (fun c => resets_or_dispatches c = false) later.
Proof.
  induction k as [|k (Hfiles & later & Hcalls & Hlater)].
  - split; [done|]. exists []. by rewrite app_nil_r.
  - unfold after_reads in *. rewrite Nat.iter_succ.
    set (w1 := Nat.iter k _ w) in *.
    assert (Hread_files : files (read_clocks w1).2 = files w1) by reflexivity.
    assert (Hread_calls :
      calls (read_clocks w1).2 = calls w1 ++ [CallBootTime; CallWallTime]).
    { cbn. by rewrite <- app_assoc. }
    rewrite Hread_files, Hread_calls, Hcalls. split; [done|].
    exists (later ++ [CallBootTime; CallWallTime]).
    rewrite <- !app_assoc. split; [done|].
    apply Forall_app. split; [done|]. by repeat constructor.
Qed.

Lemma world_log_outcome within_timeout total started received w :
  files (log_outcome within_timeout total started received w) = files w
  /\ exists later,
       calls (log_outcome within_timeout total started received w) = calls w ++ later
       /\ Forall (fun c => resets_or_dispatches c = false) later.
Proof.
  unfold log_outcome. destruct within_timeout; simpl.
  - destruct (decide (started ≠ received)); simpl.
    + split; [done|]. eexists [_]. split; [done|]. by repeat constructor.
    + split; [done|]. exists []. by rewrite app_nil_r.
  - split; [done|]. eexists [_]. split; [done|]. by repeat constructor.
Qed.

(** Deleting the storage file forgets what it held. *)
Lemma world_unlink_forgets path old w :
  world_unlink path (with_stored path old w) = world_unlink path w.
Proof.
  unfold world_unlink, with_stored, record_call. simpl.
  by rewrite delete_insert_eq.
Qed.

(** A call on a non-empty batch does not depend on what the storage file
    held when it started. *)
Lemma TriggerValidation_forgets_store fuel (self : BlockingValidatorRunner)
    (for_settings : list TFLiteSettingsT) old w :
  for_settings ≠ [] ->
  TriggerValidation fuel self for_settings (with_stored (storage_path_ self) old w)
  = TriggerValidation fuel self for_settings w.
Proof.
  intros Hne. apply TriggerValidation_after_unlink; [done|].
  apply world_unlink_forgets.
Qed.

Lemma world_at_loop_entry_eq (options : ValidatorRunnerOptions)
    (for_settings : list TFLiteSettingsT) w :
  let entry := world_at_loop_entry (new_BlockingValidatorRunner options) for_settings w in
  engine_target entry = Some (storage_path options)
  /\ stored (storage_path options) entry = []
  /\ script entry = script w
  /\ calls entry
     = calls w ++ [CallUnlink (storage_path options);
                   CallTriggerAsync (storage_path options) for_settings;
                   CallBootTime].
Proof.
  cbn. unfold stored. cbn. rewrite lookup_delete_eq.
  by rewrite <- !app_assoc.
Qed.

(** C7.  A call on a non-empty batch deletes the storage file before it
    does anything else, so for any collaborators two worlds that the
    deletion makes equal give the same run.  In the modelled world, a
    returning call made through a runner built by the constructor first
    deletes the storage file and next hands the batch to the engine, and
    does neither a second time.  So the fetched records it returns are
    those the engine appended during the sleeps of this call, followed by
    the synthesized ones: no record that the file held when the call
    started, such as the records of an earlier call, is among them, and
    the call returns the same whatever the file held. *)
Theorem store_is_cleared_before_dispatch (options : ValidatorRunnerOptions) fuel
    (for_settings : list TFLiteSettingsT) w r w' :
  let self := new_BlockingValidatorRunner options in
  let path := storage_path options in
  for_settings ≠ [] ->
  TriggerValidation fuel self for_settings w = Returned r w' ->
  (forall (W : Type) (collaborators : Collaborators W) (w1 w2 : W) fuel',
      unlink path w1 = unlink path w2 ->
      TriggerValidation fuel' self for_settings w1
      = TriggerValidation fuel' self for_settings w2)
  /\ (exists later,
      calls w' = calls w ++ CallUnlink path :: CallTriggerAsync path for_settings :: later
      /\ Forall (fun c => resets_or_dispatches c = false) later)
  /\ (exists k rs synth,
        r = written_during k w ++ synth
        /\ tflite_settings <$> written_during k w = Some <$> rs
        /\ Forall2
             (fun s event => exists boot wall, event = missing_completion_event s boot wall)
             (unmatched rs for_settings) synth)
  /\ (forall old,
        TriggerValidation fuel self for_settings (with_stored path old w)
        = Returned r w').
Proof.
  intros self path Hne Hrun. subst self path.
  set (self := new_BlockingValidatorRunner options) in *.
  destruct (TriggerValidation_returned _ _ _ _ _ _ Hne Hrun)
    as (within_timeout & w_exit & rs & Hloop & Hrs & Hr & Hw').
  destruct (world_at_loop_entry_eq options for_settings w)
    as (Htarget & Hempty & Hscript & Hentry).
  fold self in Htarget, Hempty, Hscript, Hentry.
  destruct (world_poll_loop fuel (validator_runner_impl_ self) (length for_settings)
              (computed_deadline self for_settings w) true
              (world_at_loop_entry self for_settings w) within_timeout w_exit
              Htarget Hloop)
    as (k & later1 & Hstored & Hcalls1 & Hlater1).
  change (impl_storage_path (validator_runner_impl_ self))
    with (storage_path options) in Hstored.
  rewrite Hempty in Hstored. cbn [app] in Hstored.
  assert (Hwritten :
    written_during k (world_at_loop_entry self for_settings w) = written_during k w).
  { unfold written_during. by rewrite Hscript. }
  rewrite Hwritten in Hstored.
  assert (Hfetched : fetched_at self w_exit = written_during k w) by exact Hstored.
  clear Hstored.
  split; [|split; [|split]].
  - intros W collaborators w1 w2 fuel' Hunlink.
    by apply TriggerValidation_after_unlink.
  - set (w_got := (GetCompletedResults (validator_runner_impl_ self) w_exit).2).
    assert (Hgot : calls w_got = calls w_exit ++ [CallGetResults (storage_path options)])
      by reflexivity.
    destruct (world_log_outcome within_timeout
                (total_timeout_ms self (length for_settings))
                (length for_settings) (length (fetched_at self w_exit)) w_got)
      as (_ & later2 & Hcalls2 & Hlater2).
    destruct (world_after_reads (length (unmatched rs for_settings))
                (world_at_reconcile self (length for_settings) within_timeout
                   (total_timeout_ms self (length for_settings)) w_exit))
      as (_ & later3 & Hcalls3 & Hlater3).
    exists ([CallBootTime] ++ later1 ++ [CallGetResults (storage_path options)]
            ++ later2 ++ later3).
    split.
    + rewrite Hw', Hcalls3. unfold world_at_reconcile. fold w_got.
      rewrite Hcalls2, Hgot, Hcalls1, Hentry.
      rewrite <- !app_assoc. reflexivity.
    + repeat (apply Forall_app; split); try done; by repeat constructor.
  - exists k, rs. eexists. rewrite <- Hfetched. split; [exact Hr|]. split; [done|].
    apply synthesized_shape.
  - intros old. rewrite <- Hrun.
    apply (TriggerValidation_forgets_store fuel self for_settings old w Hne).
Qed.

(** C6.  On an empty batch the call returns the empty sequence and leaves
    the world as it found it, whatever the collaborators do when called:
    it calls none of them.  In the modelled world no call is recorded, so
    the storage file is not deleted, nothing is handed to the engine,
    neither the count nor a clock is read, and no sleep is taken. *)
Theorem empty_batch_is_a_no_op fuel (self : BlockingValidatorRunner) :
  (forall (W : Type) (collaborators : Collaborators W) (w : W),
      TriggerValidation fuel self [] w = Returned [] w)
  /\ (forall w : World,
        exists w',
          TriggerValidation fuel self [] w = Returned [] w'
          /\ calls w' = calls w
          /\ files w' = files w
          /\ engine_target w' = engine_target w
          /\ script w' = script w
          /\ boot_clock w' = boot_clock w).
Proof.
  split; [reflexivity|]. intros w. exists w. by repeat split.
Qed.

End World_facts.

(** ** The properties on the scenario *)

(** A goal settled by running the definitions, membership in a batch
    written out, and its negation. *)
Ltac evaluated := vm_compute; reflexivity.

Ltac listed :=
  apply list_elem_of_In; cbv [Scenario.batch Scenario.settings In]; tauto.

Ltac unlisted :=
  let Hin := fresh "Hin" in
  intros Hin; apply list_elem_of_In in Hin;
  cbv [Scenario.batch Scenario.settings In] in Hin; intuition discriminate.

(** The example of the design: of ["cpu"] and ["gpu"] only ["cpu"]
    completes; the loop runs into the deadline at 8 s, and the call
    returns the record of ["cpu"] followed by a synthesized one. *)
Lemma synthesized_follow_fetched_witness :
  exists synth w',
    TriggerValidation 200 Scenario.runner (Scenario.batch ["cpu"; "gpu"])
      Scenario.one_completion
    = Returned ([Scenario.passed "cpu" 5030000 1700000000030000] ++ synth) w'
    /\ Forall2
         (fun s event => exists boot wall, event = missing_completion_event s boot wall)
         (Scenario.batch ["gpu"]) synth.
Proof.
  assert (Hfetched :
    fetched_at Scenario.runner
      (Scenario.loop_exit 200 Scenario.runner (Scenario.batch ["cpu"; "gpu"])
         Scenario.one_completion)
    = [Scenario.passed "cpu" 5030000 1700000000030000]) by evaluated.
  assert (Hunmatched :
    unmatched (Scenario.batch ["cpu"]) (Scenario.batch ["cpu"; "gpu"])
    = Scenario.batch ["gpu"]) by evaluated.
  rewrite <- Hfetched, <- Hunmatched.
  apply (synthesized_follow_fetched 200 Scenario.runner
           (Scenario.batch ["cpu"; "gpu"]) Scenario.one_completion false
           (Scenario.loop_exit 200 Scenario.runner (Scenario.batch ["cpu"; "gpu"])
              Scenario.one_completion)
           (Scenario.batch ["cpu"])).
  - discriminate.
  - evaluated.
  - evaluated.
Defined.

(** In the example of the design the record at index 1 is the
    synthesized one for ["gpu"], stamped with the clocks at the deadline. *)
Lemma missing_completion_is_synthesized_witness :
  exists r w',
    TriggerValidation 200 Scenario.runner (Scenario.batch ["cpu"; "gpu"])
      Scenario.one_completion
    = Returned r w'
    /\ r !! 1%nat
       = Some (CreateBenchmarkEvent (Some (Scenario.settings "gpu"))
                 BenchmarkEventType_ERROR None
                 (Some (CreateBenchmarkError BenchmarkStage_UNKNOWN
                          kMinibenchmarkCompletionEventMissing))
                 8000000 1700000003000000).
Proof.
  destruct (missing_completion_is_synthesized 200 Scenario.runner
              (Scenario.batch ["cpu"; "gpu"]) Scenario.one_completion false
              (Scenario.loop_exit 200 Scenario.runner (Scenario.batch ["cpu"; "gpu"])
                 Scenario.one_completion)
              (Scenario.batch ["cpu"]))
    as (r & w' & Hrun & Hmissing);
    [discriminate|evaluated|evaluated|].
  exists r, w'. split; [exact Hrun|].
  assert (Hgpu : Scenario.settings "gpu" ∉ Scenario.batch ["cpu"]) by unlisted.
  pose proof (Hmissing 1%nat (Scenario.settings "gpu") eq_refl Hgpu) as Hevent.
  vm_compute in Hevent. exact Hevent.
Defined.

(** In the example of the design the batch holds two distinct specs and
    the one fetched record carries one of them: two records are returned,
    one for each spec. *)
Lemma one_record_per_distinct_spec_witness :
  exists r w',
    TriggerValidation 200 Scenario.runner (Scenario.batch ["cpu"; "gpu"])
      Scenario.one_completion
    = Returned r w'
    /\ length r = 2%nat
    /\ records_for (Scenario.settings "cpu") r = 1%nat
    /\ records_for (Scenario.settings "gpu") r = 1%nat.
Proof.
  destruct (one_record_per_distinct_spec 200 Scenario.runner
              (Scenario.batch ["cpu"; "gpu"]) Scenario.one_completion false
              (Scenario.loop_exit 200 Scenario.runner (Scenario.batch ["cpu"; "gpu"])
                 Scenario.one_completion)
              (Scenario.batch ["cpu"]))
    as (r & w' & Hrun & _ & _ & Hexact);
    [discriminate|evaluated|evaluated|].
  destruct Hexact as [Hlen Hone].
  - apply (bool_decide_unpack _). vm_compute. exact I.
  - apply (bool_decide_unpack _). vm_compute. exact I.
  - intros s Hs. apply list_elem_of_In in Hs. destruct Hs as [<-|[]]. listed.
  - exists r, w'. split; [exact Hrun|]. split; [exact Hlen|].
    split; apply Hone; listed.
Defined.

(** A batch that asks twice for ["cpu"] and twice for ["gpu"], and a
    single fetched record, for ["cpu"]: the two requests for ["cpu"]
    share that record, each request for ["gpu"] has a synthesized one,
    and three records are returned for four requests. *)
Lemma equal_requests_share_fetched_records_witness :
  exists r w',
    TriggerValidation 400 Scenario.runner
      (Scenario.batch ["cpu"; "cpu"; "gpu"; "gpu"]) Scenario.single_completion
    = Returned r w'
    /\ length r = 3%nat
    /\ records_for (Scenario.settings "cpu") r = 1%nat
    /\ records_for (Scenario.settings "gpu") r = 2%nat
    /\ (length r < length (Scenario.batch ["cpu"; "cpu"; "gpu"; "gpu"]))%nat.
Proof.
  destruct (equal_requests_share_fetched_records 400 Scenario.runner
              (Scenario.batch ["cpu"; "cpu"; "gpu"; "gpu"])
              Scenario.single_completion false
              (Scenario.loop_exit 400 Scenario.runner
                 (Scenario.batch ["cpu"; "cpu"; "gpu"; "gpu"])
                 Scenario.single_completion)
              (Scenario.batch ["cpu"]))
    as (r & w' & Hrun & Hlen & Hcount & _ & Hbelow);
    [discriminate|evaluated|evaluated|].
  exists r, w'. split; [exact Hrun|]. split; [|split; [|split]].
  - rewrite Hlen. evaluated.
  - destruct (Hcount (Scenario.settings "cpu")) as [_ Hcpu].
    destruct Hcpu as [_ Hcpu]; [listed|].
    rewrite Hcpu. evaluated.
  - destruct (Hcount (Scenario.settings "gpu")) as [Hgpu _].
    rewrite Hgpu; [evaluated|unlisted].
  - destruct Hbelow as [_ Hbelow].
    + intros s.
      assert (Hfetched :
        fetched_at Scenario.runner
          (Scenario.loop_exit 400 Scenario.runner
             (Scenario.batch ["cpu"; "cpu"; "gpu"; "gpu"]) Scenario.single_completion)
        = [Scenario.passed "cpu" 5010000 1700000000010000]) by evaluated.
      rewrite Hfetched. destruct (decide (s = Scenario.settings "cpu")) as [->|Hother].
      * vm_compute. lia.
      * unfold records_for. rewrite filter_cons_False; [simpl; lia|].
        intros [= Hsame]. by destruct Hother.
    + apply Hbelow. exists (Scenario.settings "cpu"). split; [listed|].
      vm_compute. lia.
Defined.

(** C1 as stated fails on a batch that holds a spec twice: of
    ["cpu"; "gpu"; "cpu"] the engine reported once on ["cpu"] and once on
    ["gpu"]; the two fetched records match all three requests, so two
    records are returned for three requests. *)
Lemma returned_length_is_not_batch_length :
  returned (TriggerValidation 400 Scenario.runner
              (Scenario.batch ["cpu"; "gpu"; "cpu"]) Scenario.two_completions)
  = Some [Scenario.passed "cpu" 5010000 1700000000010000;
          Scenario.passed "gpu" 5015000 1700000000015000]
  /\ length (Scenario.batch ["cpu"; "gpu"; "cpu"]) = 3%nat
  /\ length <$> returned (TriggerValidation 400 Scenario.runner
                            (Scenario.batch ["cpu"; "gpu"; "cpu"])
                            Scenario.two_completions)
     ≠ Some (length (Scenario.batch ["cpu"; "gpu"; "cpu"])).
Proof.
  split; [evaluated|]. split; [reflexivity|].
  vm_compute. discriminate.
Qed.

(** C2 as stated fails when the engine wrote fewer records than a spec
    has occurrences: of ["cpu"; "cpu"] the engine reported once; that one
    record matches both requests, nothing is synthesized, and one record
    is returned for two requests. *)
Lemma equal_requests_collapse :
  returned (TriggerValidation 200 Scenario.runner
              (Scenario.batch ["cpu"; "cpu"]) Scenario.single_completion)
  = Some [Scenario.passed "cpu" 5010000 1700000000010000]
  /\ length (Scenario.batch ["cpu"; "cpu"]) = 2%nat
  /\ length <$> returned (TriggerValidation 200 Scenario.runner
                            (Scenario.batch ["cpu"; "cpu"])
                            Scenario.single_completion)
     ≠ Some (length (Scenario.batch ["cpu"; "cpu"])).
Proof.
  split; [evaluated|]. split; [reflexivity|].
  vm_compute. discriminate.
Qed.

(** Why the comparison with N in C2, amended, asks that no spec has more
    fetched records than occurrences: of ["cpu"; "cpu"; "gpu"] the engine
    reported once on ["cpu"] and twice on ["gpu"]; ["cpu"] has fewer
    records than occurrences, and yet three records are returned for
    three requests, the second record for ["gpu"] filling the gap. *)
Lemma surplus_record_fills_the_gap :
  returned (TriggerValidation 200 Scenario.runner
              (Scenario.batch ["cpu"; "cpu"; "gpu"]) Scenario.surplus_completions)
  = Some [Scenario.passed "cpu" 5010000 1700000000010000;
          Scenario.passed "gpu" 5012000 1700000000012000;
          Scenario.passed "gpu" 5015000 1700000000015000]
  /\ length (Scenario.batch ["cpu"; "cpu"; "gpu"]) = 3%nat
  /\ occurrences (Scenario.settings "cpu") (Scenario.batch ["cpu"; "cpu"; "gpu"])
     = 2%nat.
Proof. split; [evaluated|]. split; [reflexivity|evaluated]. Qed.

(** In the modelled world the loop of the example is left. *)
Lemma poll_loop_exits_witness :
  exists fuel within_timeout w_exit,
    loop_left fuel Scenario.runner (Scenario.batch ["cpu"; "gpu"])
      Scenario.one_completion within_timeout w_exit.
Proof.
  apply (poll_loop_exits Scenario.runner (Scenario.batch ["cpu"; "gpu"])
           Scenario.one_completion).
  discriminate.
Defined.

(** A call that starts with the record of an earlier call in the storage
    file returns the same as with any other contents. *)
Lemma store_is_cleared_before_dispatch_witness :
  exists r w',
    TriggerValidation 200 Scenario.runner (Scenario.batch ["gpu"]) Scenario.stale_store
    = Returned r w'
    /\ forall old,
        TriggerValidation 200 Scenario.runner (Scenario.batch ["gpu"])
          (with_stored "/data/results.fb" old Scenario.stale_store)
        = Returned r w'.
Proof.
  destruct (TriggerValidation 200 Scenario.runner (Scenario.batch ["gpu"])
              Scenario.stale_store) as [r w'| |] eqn:Hrun;
    [|vm_compute in Hrun; discriminate..].
  exists r, w'. split; [reflexivity|].
  apply (store_is_cleared_before_dispatch
           (Scenario.options_with "/data/model.tflite" (-1) 1000) 200
           (Scenario.batch ["gpu"]) Scenario.stale_store r w');
    [discriminate|exact Hrun].
Defined.

(** An event without settings in the storage file stops the call. *)
Lemma embedded_settings_are_required_witness :
  exists w',
    TriggerValidation 200 Scenario.runner (Scenario.batch ["cpu"])
      Scenario.bare_completion
    = NullDereference w'.
Proof.
  destruct (embedded_settings_are_required 200 Scenario.runner
              (Scenario.batch ["cpu"]) Scenario.bare_completion true
              (Scenario.loop_exit 200 Scenario.runner (Scenario.batch ["cpu"])
                 Scenario.bare_completion))
    as [_ Hnull]; [discriminate|evaluated|].
  destruct Hnull as [_ Hrun].
  - exists Scenario.bare_event. split; [|reflexivity].
    apply list_elem_of_In. left. reflexivity.
  - eexists. exact Hrun.
Defined.

(** * Further properties of the loop, the reconciliation and the
      constructor *)

From Stdlib Require Import Ascii DecimalPos DecimalZ.

(** ** Notions they are stated with *)
Section Further_notions.
Context `{Schema} {W : Type} `{!Collaborators W}.

(** The world after [k] rounds of the loop, each a count read, a clock
    read and a sleep. *)
Definition sleeps (k : nat) (impl : ValidatorRunnerImpl) (w : W) : W :=
  Nat.iter k (world_after_sleep impl) w.

(** A sleep lasts at least as long as asked. *)
Class PunctualSleep : Prop := {
  sleep_lasts : forall d (w : W), (boot_now w + d <= boot_now (usleep d w))%Z;
}.

(** The boot clock does not go back either across the calls made after
    the loop: the fetch, the warning and the read of the wall clock. *)
Class SteadyClock : Prop := {
  fetch_monotone :
    forall impl (w : W), (boot_now w <= boot_now (GetCompletedResults impl w).2)%Z;
  log_monotone :
    forall severity message (w : W),
      (boot_now w <= boot_now (TFLITE_LOG_PROD severity message w))%Z;
  wall_read_monotone : forall w : W, (boot_now w <= boot_now (WallTimeMicros w).2)%Z;
}.

(** The fields that make an event a missing-completion failure. *)
Definition is_missing_completion (event : BenchmarkEvent) : Prop :=
  event_type event = BenchmarkEventType_ERROR
  /\ result event = None
  /\ error event
     = Some (CreateBenchmarkError BenchmarkStage_UNKNOWN
               kMinibenchmarkCompletionEventMissing).

(** The number of sleeps that covers a wait of [milliseconds]:
    [milliseconds / 20], rounded up. *)
Definition sleeps_to_cover (milliseconds : Z) : nat :=
  Z.to_nat ((milliseconds + (kWaitBetweenRefresh - 1)) / kWaitBetweenRefresh).

End Further_notions.

Arguments PunctualSleep {_} W {_}.
Arguments SteadyClock {_} W {_}.

(** The messages logged so far in the modelled world, oldest first. *)
Definition warnings `{Schema} (w : World) : list string :=
  omap (fun c => match c with CallLog _ message => Some message | _ => None end)
    (calls w).

(** A string without a colon. *)
Fixpoint no_colon (s : string) : Prop :=
  match s with
  | EmptyString => True
  | String c rest => c ≠ ":"%char /\ no_colon rest
  end.

(** Runners and worlds to run the further properties on: a runner that
    allows 40 ms per test, and one that allows none. *)
Module Cases.
Import Scenario.

Definition brisk_runner : BlockingValidatorRunner :=
  new_BlockingValidatorRunner (Scenario.options_with "/data/model.tflite" (-1) 40).

Definition impatient_runner : BlockingValidatorRunner :=
  new_BlockingValidatorRunner (Scenario.options_with "/data/model.tflite" (-1) 0).

(** The engine reports on ["cpu"] during the second sleep, 25 ms late. *)
Definition late_completion : World :=
  Scenario.world_with []
    [Scenario.quiet_sleep;
     {| oversleep := 250; wall_drift := -7;
        appended := [Scenario.passed "cpu" 5030000 1700000000030000] |}].

(** The engine never reports. *)
Definition silence : World := Scenario.world_with [] [].

(** The example run on: two requests, of which ["cpu"] completes late. *)
Definition requests : list TFLiteSettingsT := Scenario.batch ["cpu"; "gpu"].

Definition impl : ValidatorRunnerImpl := validator_runner_impl_ brisk_runner.

Definition deadline : Z := computed_deadline brisk_runner requests late_completion.

Definition entry : World := world_at_loop_entry brisk_runner requests late_completion.

Definition exit : World := Scenario.loop_exit 20 brisk_runner requests late_completion.

(** Options that name the model by a descriptor only. *)
Definition descriptor_options (fd offset size : Z) : ValidatorRunnerOptions :=
  {| model_path := ""; model_fd := fd; model_offset := offset; model_size := size;
     storage_path := "/data/results.fb"; data_directory_path := "/data";
     per_test_timeout_ms := 1000;
     custom_input_batch_size := 0; custom_input_data := [];
     error_reporter := 0%Z; nnapi_sl := 0%Z;
     validation_entrypoint_name := "validation_entrypoint";
     benchmark_result_evaluator := 0%Z |}.

End Cases.

Section Loop_exit_facts.
Context `{Schema} {W : Type} `{!Collaborators W}.
Implicit Types (w : W) (impl : ValidatorRunnerImpl).

Lemma sleeps_succ k impl w :
  sleeps (S k) impl w = sleeps k impl (world_after_sleep impl w).
Proof. unfold sleeps. by rewrite Nat.iter_succ_r. Qed.

(** A loop entered with the flag set is left at the first test whose exit
    condition holds, after one sleep for each test before it. *)
Lemma poll_loop_first_exit fuel impl size deadline w within_timeout w' :
  poll_loop fuel impl size deadline true w = Returned within_timeout w' ->
  exists k,
    (k < fuel)%nat
    /\ (forall j, (j < k)%nat -> ~ exit_condition impl size deadline (sleeps j impl w))
    /\ exit_condition impl size deadline (sleeps k impl w)
    /\ (within_timeout = true <-> (size <= count_read impl (sleeps k impl w))%nat)
    /\ w' = if within_timeout
            then (GetNumCompletedResults impl (sleeps k impl w)).2
            else (BootTimeMicros (GetNumCompletedResults impl (sleeps k impl w)).2).2.
Proof.
  revert w. induction fuel as [|fuel IH]; intros w; [done|].
  destruct (decide (size <= count_read impl w)%nat) as [Hcount|Hcount].
  { rewrite poll_loop_done by done. intros [= <- <-]. exists 0%nat.
    split; [lia|]. split; [intros j Hj; lia|]. split; [by left|]. by split. }
  destruct (decide (deadline <= clock_read impl w)%Z) as [Hnow|Hnow].
  { rewrite poll_loop_timed_out by (done || lia). intros [= <- <-]. exists 0%nat.
    split; [lia|]. split; [intros j Hj; lia|]. split; [by right|].
    split; [|done]. split; [done|]. unfold sleeps. simpl. lia. }
  rewrite poll_loop_sleeps by lia. intros Hrun.
  destruct (IH _ Hrun) as (k & Hk & Hbefore & Hexit & Hflag & Hw').
  exists (S k). rewrite sleeps_succ. split; [lia|]. split; [|done].
  intros [|j] Hj.
  - unfold sleeps. simpl. unfold exit_condition. lia.
  - rewrite sleeps_succ. apply Hbefore. lia.
Qed.

(** X1.  The loop of a call on a non-empty batch of N requests is left at
    the first test whose exit condition holds (the count read has reached
    N, or the clock read has reached the deadline of the call), after one
    sleep for each test before it and no other; the flag it leaves is set
    exactly when that test read a count of at least N, and cleared when
    the loop was left through the deadline. *)
Theorem loop_leaves_at_first_exit fuel (self : BlockingValidatorRunner)
    (for_settings : list TFLiteSettingsT) w within_timeout w_exit :
  loop_left fuel self for_settings w within_timeout w_exit ->
  let impl := validator_runner_impl_ self in
  let size := length for_settings in
  let deadline := computed_deadline self for_settings w in
  let entry := world_at_loop_entry self for_settings w in
  exists k,
    (k < fuel)%nat
    /\ (forall j, (j < k)%nat -> ~ exit_condition impl size deadline (sleeps j impl entry))
    /\ exit_condition impl size deadline (sleeps k impl entry)
    /\ (within_timeout = true <-> (size <= count_read impl (sleeps k impl entry))%nat)
    /\ w_exit = if within_timeout
               then (GetNumCompletedResults impl (sleeps k impl entry)).2
               else (BootTimeMicros
                       (GetNumCompletedResults impl (sleeps k impl entry)).2).2.
Proof. intros Hloop impl size deadline entry. by apply poll_loop_first_exit. Qed.

Section Monotone.
Context `{!AdvancingClock W}.

(** Once the clock has reached the deadline the first test leaves the
    loop, and the world it leaves is the one after its reads: there is
    no sleep. *)
Lemma poll_loop_past_deadline fuel impl size deadline flag w :
  (deadline <= boot_now w)%Z ->
  exists within_timeout w',
    poll_loop (S fuel) impl size deadline flag w = Returned within_timeout w'
    /\ (w' = (GetNumCompletedResults impl w).2
        \/ w' = (BootTimeMicros (GetNumCompletedResults impl w).2).2).
Proof.
  intros Hpast.
  destruct (decide (size <= count_read impl w)%nat) as [Hcount|Hcount].
  - eexists _, _. split; [by apply poll_loop_done|by left].
  - eexists _, _. split; [|by right]. apply poll_loop_timed_out; [lia|].
    pose proof (count_read_monotone impl w) as Hmono.
    unfold clock_read, boot_now in *. lia.
Qed.

Lemma loop_entry_after_dispatch (self : BlockingValidatorRunner)
    (for_settings : list TFLiteSettingsT) w :
  (dispatch_time self for_settings w
   <= boot_now (world_at_loop_entry self for_settings w))%Z.
Proof.
  unfold dispatch_time, world_at_loop_entry.
  apply (boot_read_monotone (world_after_dispatch self for_settings w)).
Qed.

Lemma computed_deadline_exact (self : BlockingValidatorRunner)
    (for_settings : list TFLiteSettingsT) w :
  let exact :=
    (per_test_timeout_ms_ self * (1 + Z.of_nat (length for_settings)) * 1000)%Z in
  Int64.fits_s64 exact ->
  Int64.fits_s64 (dispatch_time self for_settings w + exact) ->
  computed_deadline self for_settings w
  = (dispatch_time self for_settings w + exact)%Z.
Proof.
  intros exact Hexact Hsum. unfold computed_deadline.
  rewrite (deadline_us_wrap _ _
             (per_test_timeout_ms_ self * (1 + Z.of_nat (length for_settings))))
    by (symmetry; apply total_timeout_ms_wrap).
  by apply wrap_s64_fits.
Qed.

(** X2.  With a per-test timeout of zero or less (and a deadline that
    fits in 64 bits) a call on a non-empty batch does not wait: under a
    clock that does not go back, its loop is left at the first test, by
    the count or by the deadline, and never sleeps. *)
Theorem no_timeout_no_wait (self : BlockingValidatorRunner)
    (for_settings : list TFLiteSettingsT) w :
  for_settings ≠ [] ->
  (per_test_timeout_ms_ self <= 0)%Z ->
  let exact :=
    (per_test_timeout_ms_ self * (1 + Z.of_nat (length for_settings)) * 1000)%Z in
  Int64.fits_s64 exact ->
  Int64.fits_s64 (dispatch_time self for_settings w + exact) ->
  let entry := world_at_loop_entry self for_settings w in
  exists within_timeout w_exit,
    loop_left 1 self for_settings w within_timeout w_exit
    /\ (w_exit = (GetNumCompletedResults (validator_runner_impl_ self) entry).2
        \/ w_exit
           = (BootTimeMicros
                (GetNumCompletedResults (validator_runner_impl_ self) entry).2).2).
Proof.
  intros Hne Htimeout exact Hexact Hsum entry. unfold loop_left.
  apply poll_loop_past_deadline.
  rewrite computed_deadline_exact by done. fold exact.
  pose proof (loop_entry_after_dispatch self for_settings w) as Hentry.
  fold entry in Hentry. subst exact. nia.
Qed.

Section Punctual.
Context `{!PunctualSleep W}.

Lemma poll_loop_within n impl size deadline flag w :
  (deadline - boot_now w
   <= Z.of_nat n * ToInt64Microseconds kWaitBetweenRefresh)%Z ->
  exists within_timeout w',
    poll_loop (S n) impl size deadline flag w = Returned within_timeout w'.
Proof.
  revert flag w. induction n as [|n IH]; intros flag w Hdistance.
  { destruct (poll_loop_past_deadline 0 impl size deadline flag w)
      as (b & w' & Hrun & _); [lia|by exists b, w']. }
  destruct (decide (size <= count_read impl w)%nat) as [Hcount|Hcount].
  { eexists _, _. by apply poll_loop_done. }
  destruct (decide (deadline <= clock_read impl w)%Z) as [Hnow|Hnow].
  { eexists _, _. apply poll_loop_timed_out; [lia|done]. }
  rewrite poll_loop_sleeps by lia. apply IH.
  pose proof (count_read_monotone impl w) as Hcount_mono.
  pose proof (boot_read_monotone (GetNumCompletedResults impl w).2) as Hread_mono.
  pose proof (sleep_lasts (ToInt64Microseconds kWaitBetweenRefresh)
                (BootTimeMicros (GetNumCompletedResults impl w).2).2) as Hsleep.
  unfold world_after_sleep, boot_now in *. lia.
Qed.

(** X3.  When sleeps last at least as long as asked and the deadline fits
    in 64 bits, the loop of a call on a non-empty batch of size N is left
    after at most ceil(T / 20) sleeps, T = perTestTimeout * (1 + N)
    milliseconds, whatever the engine does: the call itself bounds the
    wait. *)
Theorem wait_is_bounded (self : BlockingValidatorRunner)
    (for_settings : list TFLiteSettingsT) w :
  for_settings ≠ [] ->
  let total := (per_test_timeout_ms_ self * (1 + Z.of_nat (length for_settings)))%Z in
  Int64.fits_s64 (total * 1000) ->
  Int64.fits_s64 (dispatch_time self for_settings w + total * 1000) ->
  let impl := validator_runner_impl_ self in
  let entry := world_at_loop_entry self for_settings w in
  exists within_timeout w_exit k,
    loop_left (S (sleeps_to_cover total)) self for_settings w within_timeout w_exit
    /\ (k <= sleeps_to_cover total)%nat
    /\ w_exit = (if within_timeout
                 then (GetNumCompletedResults impl (sleeps k impl entry)).2
                 else (BootTimeMicros
                         (GetNumCompletedResults impl (sleeps k impl entry)).2).2)
    /\ TriggerValidation (S (sleeps_to_cover total)) self for_settings w ≠ OutOfFuel.
Proof.
  intros Hne total Hexact Hsum impl entry.
  destruct (poll_loop_within (sleeps_to_cover total) impl (length for_settings)
              (computed_deadline self for_settings w) true entry)
    as (within_timeout & w_exit & Hloop).
  { rewrite computed_deadline_exact by done. fold total.
    pose proof (loop_entry_after_dispatch self for_settings w) as Hentry.
    fold entry in Hentry.
    unfold sleeps_to_cover, ToInt64Microseconds, kWaitBetweenRefresh.
    destruct (decide (total <= 0)%Z) as [Hneg|Hpos]; [lia|].
    rewrite Z2Nat.id by (apply Z.div_pos; lia).
    pose proof (Z.div_mod (total + (20 - 1)) 20 ltac:(lia)) as Hdiv.
    pose proof (Z.mod_pos_bound (total + (20 - 1)) 20 ltac:(lia)) as Hmod.
    lia. }
  destruct (poll_loop_first_exit _ _ _ _ _ _ _ Hloop)
    as (k & Hk & _ & _ & _ & Hexit).
  exists within_timeout, w_exit, k. split; [exact Hloop|]. split; [lia|].
  split; [exact Hexit|].
  rewrite TriggerValidation_nonempty by done.
  fold impl entry. rewrite Hloop.
  destruct (embedded_settings_cases (fetched_at self w_exit)) as [[rs Hrs]|Hnull].
  - by rewrite (reconcile_returned _ _ _ _ _ _ Hrs).
  - by rewrite (reconcile_null _ _ _ _ _ Hnull).
Qed.

End Punctual.
End Monotone.
End Loop_exit_facts.

(** ** More on what a call returns *)
Section Returned_facts.
Context `{Schema} {W : Type} `{!Collaborators W}.
Implicit Types (w : W) (rs : list TFLiteSettingsT) (s : TFLiteSettingsT).
Implicit Types (self : BlockingValidatorRunner) (for_settings : list TFLiteSettingsT).

Lemma unmatched_nil for_settings : unmatched [] for_settings = for_settings.
Proof.
  unfold unmatched. induction for_settings as [|s rest IH]; [done|].
  rewrite filter_cons_True by apply not_elem_of_nil. by rewrite IH.
Qed.

Lemma unmatched_empty rs for_settings :
  unmatched rs for_settings = [] <-> forall s, s ∈ for_settings -> s ∈ rs.
Proof.
  unfold unmatched. induction for_settings as [|s rest IH].
  - split; [|done]. intros _ s Hs. by apply elem_of_nil in Hs.
  - destruct (decide (s ∈ rs)) as [Hin|Hin].
    + rewrite filter_cons_False by (by intros []). rewrite IH. split.
      * intros Hrest s' [->|Hs']%elem_of_cons; [done|by apply Hrest].
      * intros Hall s' Hs'. apply Hall, elem_of_cons. by right.
    + rewrite filter_cons_True by done. split; [done|].
      intros Hall. destruct Hin. apply Hall, elem_of_cons. by left.
Qed.

Lemma synthesized_are_missing_completions (objs : list TFLiteSettingsT) w :
  Forall is_missing_completion (synthesized objs w).
Proof.
  revert w. induction objs as [|s rest IH]; intros w; cbn [synthesized].
  - constructor.
  - constructor; [by repeat split|apply IH].
Qed.

Lemma synthesized_lookup_inv (objs : list TFLiteSettingsT) w k event :
  synthesized objs w !! k = Some event ->
  exists s,
    objs !! k = Some s
    /\ event = missing_completion_event s
                 (BootTimeMicros (after_reads k w)).1
                 (WallTimeMicros (BootTimeMicros (after_reads k w)).2).1.
Proof.
  intros Hk.
  assert (Hlt : (k < length objs)%nat).
  { rewrite <- (length_synthesized objs w). by apply lookup_lt_Some in Hk. }
  destruct (lookup_lt_is_Some_2 objs k Hlt) as [s Hs]. exists s. split; [done|].
  rewrite (synthesized_lookup objs w k s Hs) in Hk. injection Hk as <-.
  unfold read_clocks. destruct (BootTimeMicros (after_reads k w)) as [boot w1].
  cbn [fst snd]. by destruct (WallTimeMicros w1) as [wall w2].
Qed.

(** X4.  When nothing was fetched (the engine wrote no record before the
    loop was left), a call on a non-empty batch returns exactly N
    records, all of them missing-completion failures, the i-th carrying
    the settings of the i-th request, equal requests included. *)
Theorem silent_engine_fails_every_request fuel self for_settings w within_timeout
    w_exit :
  for_settings ≠ [] ->
  loop_left fuel self for_settings w within_timeout w_exit ->
  fetched_at self w_exit = [] ->
  exists r w',
    TriggerValidation fuel self for_settings w = Returned r w'
    /\ length r = length for_settings
    /\ tflite_settings <$> r = Some <$> for_settings
    /\ Forall is_missing_completion r.
Proof.
  intros Hne Hloop Hnone.
  assert (Hrs : tflite_settings <$> fetched_at self w_exit = Some <$> [])
    by (by rewrite Hnone).
  eexists _, _.
  split; [by apply (TriggerValidation_returns fuel self for_settings w within_timeout
                      w_exit [])|].
  rewrite Hnone, unmatched_nil. cbn [app].
  split; [apply length_synthesized|].
  split; [apply synthesized_settings|apply synthesized_are_missing_completions].
Qed.

(** X5.  A call on a non-empty batch never drops and never reorders a
    fetched record and adds at most one record per request: with M
    records fetched it returns between M and M + N records, the fetched
    ones first; and it returns the fetched records alone exactly when
    the settings of every request are carried by some fetched record. *)
Theorem fetched_records_are_kept fuel self for_settings w within_timeout w_exit rs :
  for_settings ≠ [] ->
  loop_left fuel self for_settings w within_timeout w_exit ->
  tflite_settings <$> fetched_at self w_exit = Some <$> rs ->
  exists r w',
    TriggerValidation fuel self for_settings w = Returned r w'
    /\ take (length (fetched_at self w_exit)) r = fetched_at self w_exit
    /\ (length (fetched_at self w_exit) <= length r
        <= length (fetched_at self w_exit) + length for_settings)%nat
    /\ (r = fetched_at self w_exit <-> forall s, s ∈ for_settings -> s ∈ rs).
Proof.
  intros Hne Hloop Hrs. eexists _, _.
  split; [by apply TriggerValidation_returns|].
  set (w_rec := world_at_reconcile _ _ _ _ _).
  split; [by rewrite take_app_length|]. split.
  - rewrite length_app, length_synthesized.
    pose proof (length_filter (fun s => s ∉ rs) for_settings) as Hfilter.
    unfold unmatched. lia.
  - rewrite <- unmatched_empty. split.
    + intros Hsame. apply (f_equal length) in Hsame.
      rewrite length_app, length_synthesized in Hsame.
      apply length_zero_iff_nil. lia.
    + intros ->. cbn [synthesized]. by rewrite app_nil_r.
Qed.

(** X6.  Every record a call returns embeds settings, so the caller may
    read them; and the settings carried by the returned records are
    those of the fetched records and those of the requests, no other. *)
Theorem returned_records_embed_settings fuel self for_settings w within_timeout
    w_exit rs :
  for_settings ≠ [] ->
  loop_left fuel self for_settings w within_timeout w_exit ->
  tflite_settings <$> fetched_at self w_exit = Some <$> rs ->
  exists r w',
    TriggerValidation fuel self for_settings w = Returned r w'
    /\ (forall event, event ∈ r -> is_Some (tflite_settings event))
    /\ forall s,
        (exists event, event ∈ r /\ tflite_settings event = Some s)
        <-> s ∈ rs \/ s ∈ for_settings.
Proof.
  intros Hne Hloop Hrs. eexists _, _.
  split; [by apply TriggerValidation_returns|].
  set (w_rec := world_at_reconcile _ _ _ _ _).
  assert (Hall :
    tflite_settings
      <$> (fetched_at self w_exit ++ synthesized (unmatched rs for_settings) w_rec)
    = Some <$> (rs ++ unmatched rs for_settings)).
  { by rewrite !fmap_app, Hrs, synthesized_settings. }
  split.
  - intros event Hevent.
    assert (Hin : tflite_settings event ∈ Some <$> (rs ++ unmatched rs for_settings)).
    { rewrite <- Hall. by apply list_elem_of_fmap_2. }
    apply list_elem_of_fmap in Hin as (s & -> & _). by exists s.
  - intros s. split.
    + intros (event & Hevent & Hs).
      assert (Hin : Some s ∈ Some <$> (rs ++ unmatched rs for_settings)).
      { rewrite <- Hall, <- Hs. by apply list_elem_of_fmap_2. }
      apply list_elem_of_fmap in Hin as (s' & [= <-] & Hin).
      apply elem_of_app in Hin as [Hin|Hin]; [by left|right].
      unfold unmatched in Hin. by apply list_elem_of_filter in Hin as [_ Hin].
    + intros Hs.
      assert (Hin : Some s ∈ Some <$> (rs ++ unmatched rs for_settings)).
      { apply list_elem_of_fmap_2, elem_of_app.
        destruct (decide (s ∈ rs)) as [Hfound|Hmissing]; [by left|right].
        destruct Hs as [Hs|Hs]; [done|].
        unfold unmatched. by apply list_elem_of_filter. }
      rewrite <- Hall in Hin.
      apply list_elem_of_fmap in Hin as (event & Hevent & Hin). by exists event.
Qed.

End Returned_facts.

(** ** The timestamps of the synthesized records *)
Section Timestamp_facts.
Context `{Schema} {W : Type} `{!Collaborators W}.
Context `{!AdvancingClock W} `{!SteadyClock W}.
Implicit Types (w : W) (impl : ValidatorRunnerImpl).

Lemma boot_now_after_sleeps k impl w : (boot_now w <= boot_now (sleeps k impl w))%Z.
Proof.
  induction k as [|k IH]; [done|].
  unfold sleeps in *. rewrite Nat.iter_succ.
  destruct (sleep_brings_deadline_closer impl (Nat.iter k (world_after_sleep impl) w))
    as [Hcloser _]. lia.
Qed.

(** The loop does not take the clock back, and a loop left through the
    deadline leaves the clock at or past it. *)
Lemma boot_now_after_loop fuel impl size deadline w within_timeout w' :
  poll_loop fuel impl size deadline true w = Returned within_timeout w' ->
  (boot_now w <= boot_now w')%Z
  /\ (within_timeout = false -> (deadline <= boot_now w')%Z).
Proof.
  intros Hloop.
  destruct (poll_loop_first_exit _ _ _ _ _ _ _ Hloop)
    as (k & _ & _ & Hexit & Hflag & ->).
  pose proof (boot_now_after_sleeps k impl w) as Hsleeps.
  pose proof (count_read_monotone impl (sleeps k impl w)) as Hcount.
  pose proof (boot_read_monotone (GetNumCompletedResults impl (sleeps k impl w)).2)
    as Hread.
  destruct within_timeout.
  - split; [lia|done].
  - assert (Hlate : (deadline <= clock_read impl (sleeps k impl w))%Z).
    { destruct Hexit as [Hdone|Hlate]; [|done].
      apply Hflag in Hdone. discriminate. }
    unfold clock_read, boot_now in *. split; [lia|]. intros _. lia.
Qed.

Lemma boot_now_at_reconcile (self : BlockingValidatorRunner) size within_timeout total w :
  (boot_now w <= boot_now (world_at_reconcile self size within_timeout total w))%Z.
Proof.
  unfold world_at_reconcile, log_outcome.
  pose proof (fetch_monotone (validator_runner_impl_ self) w) as Hfetch.
  destruct within_timeout; cbn [negb].
  - destruct (decide _); [|done].
    etrans; [exact Hfetch|apply log_monotone].
  - etrans; [exact Hfetch|apply log_monotone].
Qed.

Lemma boot_now_after_reads j k w :
  (j <= k)%nat -> (boot_now (after_reads j w) <= boot_now (after_reads k w))%Z.
Proof.
  induction 1 as [|k Hle IH]; [done|].
  etrans; [exact IH|]. unfold after_reads. rewrite Nat.iter_succ.
  set (w1 := Nat.iter k _ w). unfold read_clocks.
  pose proof (boot_read_monotone w1) as Hboot.
  pose proof (wall_read_monotone (BootTimeMicros w1).2) as Hwall.
  destruct (BootTimeMicros w1) as [boot w2]. cbn [fst snd] in *.
  destruct (WallTimeMicros w2) as [wall w3]. cbn [fst snd] in *. lia.
Qed.

(** X7.  Under a boot clock that never goes back, the boot timestamp of
    every synthesized record of a call is at or after the reading taken
    at the dispatch; it is at or after the deadline of the call when the
    loop was left through the deadline; and the synthesized records are
    stamped in non-decreasing order. *)
Theorem synthesized_timestamps_follow_the_wait fuel (self : BlockingValidatorRunner)
    (for_settings : list TFLiteSettingsT) w within_timeout w_exit rs :
  for_settings ≠ [] ->
  loop_left fuel self for_settings w within_timeout w_exit ->
  tflite_settings <$> fetched_at self w_exit = Some <$> rs ->
  exists r w',
    TriggerValidation fuel self for_settings w = Returned r w'
    /\ forall i event,
        r !! (length (fetched_at self w_exit) + i)%nat = Some event ->
        (dispatch_time self for_settings w <= boottime_us event)%Z
        /\ (within_timeout = false ->
            (computed_deadline self for_settings w <= boottime_us event)%Z)
        /\ forall j earlier,
            (j <= i)%nat ->
            r !! (length (fetched_at self w_exit) + j)%nat = Some earlier ->
            (boottime_us earlier <= boottime_us event)%Z.
Proof.
  intros Hne Hloop Hrs. eexists _, _.
  split; [by apply TriggerValidation_returns|].
  set (w_rec := world_at_reconcile _ _ _ _ _).
  assert (Hstamp : forall i event,
    (fetched_at self w_exit ++ synthesized (unmatched rs for_settings) w_rec)
      !! (length (fetched_at self w_exit) + i)%nat = Some event ->
    boottime_us event = boot_now (after_reads i w_rec)).
  { intros i event Hi. rewrite lookup_app_r in Hi by lia.
    replace (length (fetched_at self w_exit) + i - length (fetched_at self w_exit))%nat
      with i in Hi by lia.
    by apply synthesized_lookup_inv in Hi as (s & _ & ->). }
  destruct (boot_now_after_loop _ _ _ _ _ _ _ Hloop) as [Hafter Hlate].
  pose proof (loop_entry_after_dispatch self for_settings w) as Hentry.
  pose proof (boot_now_at_reconcile self (length for_settings) within_timeout
                (total_timeout_ms self (length for_settings)) w_exit) as Hrec.
  fold w_rec in Hrec.
  intros i event Hi. rewrite (Hstamp i event Hi).
  pose proof (boot_now_after_reads 0 i w_rec ltac:(lia)) as Hreads.
  change (after_reads 0 w_rec) with w_rec in Hreads.
  split; [lia|]. split.
  - intros Hout. specialize (Hlate Hout). lia.
  - intros j earlier Hj Hearlier. rewrite (Hstamp j earlier Hearlier).
    by apply boot_now_after_reads.
Qed.

End Timestamp_facts.

(** ** The warnings of a call, in the modelled world *)
Section Warning_facts.
Context `{Schema}.
Implicit Types (w : World) (impl : ValidatorRunnerImpl).

Lemma warnings_record_call c w :
  warnings (record_call c w)
  = warnings w ++ match c with CallLog _ message => [message] | _ => [] end.
Proof. unfold warnings. cbn [calls record_call]. rewrite omap_app. by destruct c. Qed.

Lemma warnings_after_sleeps k impl w : warnings (sleeps k impl w) = warnings w.
Proof.
  induction k as [|k IH]; [done|].
  unfold sleeps in *. rewrite Nat.iter_succ.
  unfold warnings in *. rewrite calls_after_sleep, omap_app, IH.
  cbn. by rewrite app_nil_r.
Qed.

Lemma warnings_after_reads k w : warnings (after_reads k w) = warnings w.
Proof.
  induction k as [|k IH]; [done|].
  unfold after_reads in *. rewrite Nat.iter_succ.
  set (w1 := Nat.iter k _ w) in *.
  change ((read_clocks w1).2) with (record_call CallWallTime (record_call CallBootTime w1)).
  rewrite !warnings_record_call, IH. by rewrite !app_nil_r.
Qed.

(** X8.  In the modelled world a returning call on a non-empty batch
    logs at most one message.  When the loop was left through the
    deadline it is the time-out warning, which carries the total timeout
    in milliseconds, whatever the number of records fetched; when the
    loop was left by the count it is the count warning if the number of
    records fetched differs from N, and nothing otherwise. *)
Theorem a_call_warns_at_most_once fuel (self : BlockingValidatorRunner)
    (for_settings : list TFLiteSettingsT) w within_timeout w_exit rs :
  for_settings ≠ [] ->
  loop_left fuel self for_settings w within_timeout w_exit ->
  tflite_settings <$> fetched_at self w_exit = Some <$> rs ->
  exists r w',
    TriggerValidation fuel self for_settings w = Returned r w'
    /\ warnings w'
       = warnings w
         ++ (if within_timeout then
               if decide (length for_settings = length (fetched_at self w_exit))
               then []
               else ["Validation completed.Started benchmarking for " +:+
                     decimal (Z.of_nat (length for_settings)) +:+
                     " TFLiteSettings, received " +:+
                     decimal (Z.of_nat (length (fetched_at self w_exit))) +:+
                     " results."]
             else ["Validation timed out after " +:+
                   decimal (total_timeout_ms self (length for_settings)) +:+
                   " ms. Return before all tests finished."]).
Proof.
  intros Hne Hloop Hrs. eexists _, _.
  split; [by apply TriggerValidation_returns|].
  rewrite warnings_after_reads.
  destruct (poll_loop_first_exit _ _ _ _ _ _ _ Hloop)
    as (k & _ & _ & _ & _ & Hexit).
  assert (Hquiet : warnings w_exit = warnings w).
  { rewrite Hexit. destruct within_timeout.
    - change ((GetNumCompletedResults ?i ?x).2)
        with (record_call (CallGetNum (impl_storage_path i)) x).
      rewrite warnings_record_call, warnings_after_sleeps. cbn [app].
      rewrite app_nil_r. unfold world_at_loop_entry, world_after_dispatch.
      cbn. unfold warnings. cbn. rewrite !omap_app. cbn. by rewrite !app_nil_r.
    - change ((BootTimeMicros (GetNumCompletedResults ?i ?x).2).2)
        with (record_call CallBootTime (record_call (CallGetNum (impl_storage_path i)) x)).
      rewrite !warnings_record_call, warnings_after_sleeps. cbn [app].
      rewrite !app_nil_r. unfold world_at_loop_entry, world_after_dispatch.
      cbn. unfold warnings. cbn. rewrite !omap_app. cbn. by rewrite !app_nil_r. }
  unfold world_at_reconcile, log_outcome.
  change ((GetCompletedResults ?i w_exit).2)
    with (record_call (CallGetResults (impl_storage_path i)) w_exit).
  destruct within_timeout; cbn [negb].
  - destruct (decide (length for_settings ≠ length (fetched_at self w_exit)))
      as [Hdiff|Hsame].
    + rewrite decide_False by done.
      change (TFLITE_LOG_PROD ?sev ?msg ?x) with (record_call (CallLog sev msg) x).
      rewrite !warnings_record_call, Hquiet. by rewrite app_nil_r.
    + rewrite decide_True by (by destruct (decide (length for_settings
                                    = length (fetched_at self w_exit))); [|destruct Hsame]).
      rewrite warnings_record_call, Hquiet. by rewrite !app_nil_r.
  - change (TFLITE_LOG_PROD ?sev ?msg ?x) with (record_call (CallLog sev msg) x).
    rewrite !warnings_record_call, Hquiet. by rewrite app_nil_r.
Qed.

End Warning_facts.

(** ** The descriptor token of the constructor *)
Section Token_facts.
Context `{Schema}.

Lemma no_colon_digits d : no_colon (NilEmpty.string_of_uint d).
Proof. induction d; simpl; (split; [discriminate|assumption]) || exact I. Qed.

Lemma no_colon_decimal z : no_colon (decimal z).
Proof.
  unfold decimal, NilZero.string_of_int, NilZero.string_of_uint.
  destruct (Z.to_int z) as [d|d].
  - destruct d; try apply no_colon_digits. simpl. by split.
  - split; [discriminate|].
    destruct d; try apply no_colon_digits. simpl. by split.
Qed.

(** Two strings cut at their first colon are cut alike. *)
Lemma first_colon_splits a a' b b' :
  no_colon a -> no_colon a' ->
  a +:+ ":" +:+ b = a' +:+ ":" +:+ b' -> a = a' /\ b = b'.
Proof.
  revert a'. induction a as [|c a IH]; intros [|c' a']; simpl.
  - intros _ _ [= Hb]. by subst.
  - intros _ [Hc' _] [= Hc _]. by destruct Hc'.
  - intros [Hc _] _ [= Hc' _]. by destruct Hc.
  - intros [_ Ha] [_ Ha'] [= Hc Hrest]. subst c'.
    destruct (IH a' Ha Ha' Hrest) as [Ha_eq Hb]. by subst.
Qed.

Lemma to_int_not_nil z :
  Z.to_int z ≠ Decimal.Pos Decimal.Nil /\ Z.to_int z ≠ Decimal.Neg Decimal.Nil.
Proof.
  destruct z as [|p|p]; simpl; split; try discriminate;
    intros [= Hnil]; by apply (DecimalPos.Unsigned.to_uint_nonnil p).
Qed.

(** The decimal rendering tells integers apart. *)
Lemma decimal_inj a b : decimal a = decimal b -> a = b.
Proof.
  unfold decimal. intros Hsame.
  destruct (to_int_not_nil a) as [Ha1 Ha2]. destruct (to_int_not_nil b) as [Hb1 Hb2].
  pose proof (NilZero.isi (Z.to_int a) Ha1 Ha2) as Hparse_a.
  pose proof (NilZero.isi (Z.to_int b) Hb1 Hb2) as Hparse_b.
  rewrite Hsame, Hparse_b in Hparse_a. injection Hparse_a as Hint.
  rewrite <- (DecimalZ.of_to a), <- (DecimalZ.of_to b). by rewrite Hint.
Qed.

(** X9.  The descriptor token cannot be misread: for options without a
    model path and with a descriptor that is not negative, the token is
    not empty, and two different triples of descriptor, offset and size
    never give the same token. *)
Theorem descriptor_token_is_unambiguous (options options' : ValidatorRunnerOptions) :
  model_path options = "" -> model_path options' = "" ->
  (0 <= model_fd options)%Z ->
  (model_fd options, model_offset options, model_size options)
  ≠ (model_fd options', model_offset options', model_size options') ->
  constructor_model_path options ≠ ""
  /\ constructor_model_path options ≠ constructor_model_path options'.
Proof.
  intros Hpath Hpath' Hfd Hdiff. unfold constructor_model_path.
  rewrite Hpath, Hpath'.
  rewrite (decide_False (P := "" ≠ "")) by (intros Hne; by apply Hne).
  rewrite decide_True by done. split; [discriminate|].
  destruct (decide (0 <= model_fd options')%Z) as [Hfd'|Hfd']; [|discriminate].
  intros [= Htoken]. apply Hdiff.
  apply first_colon_splits in Htoken as [Hd1 Htoken]; try apply no_colon_decimal.
  apply first_colon_splits in Htoken as [Hd2 Hd3]; try apply no_colon_decimal.
  apply decimal_inj in Hd1, Hd2, Hd3. congruence.
Qed.

End Token_facts.

(** ** The further properties on the cases *)

Import Scenario.

#[export] Instance world_punctual_sleep `{Schema} : PunctualSleep World.
Proof.
  split. intros d w. unfold boot_now. simpl. unfold world_sleep.
  destruct (script w) as [|step later]; simpl; lia.
Qed.

#[export] Instance world_steady_clock `{Schema} : SteadyClock World.
Proof. split; intros; unfold boot_now; simpl; lia. Qed.

(** A bound of the 64-bit range, checked by evaluation. *)
Ltac in_range := vm_compute; split; [discriminate|reflexivity].

(** With 40 ms per test and two requests the deadline is 120 ms after the
    dispatch; the sixth sleep passes it. *)
Lemma loop_leaves_at_first_exit_witness :
  exists k,
    (k < 20)%nat
    /\ (forall j, (j < k)%nat ->
          ~ exit_condition Cases.impl 2 Cases.deadline (sleeps j Cases.impl Cases.entry))
    /\ exit_condition Cases.impl 2 Cases.deadline (sleeps k Cases.impl Cases.entry)
    /\ (false = true
        <-> (2 <= count_read Cases.impl (sleeps k Cases.impl Cases.entry))%nat)
    /\ Cases.exit
       = (BootTimeMicros
            (GetNumCompletedResults Cases.impl (sleeps k Cases.impl Cases.entry)).2).2.
Proof.
  apply (loop_leaves_at_first_exit 20 Cases.brisk_runner Cases.requests
           Cases.late_completion false Cases.exit).
  evaluated.
Defined.

(** A runner that allows no time leaves the loop at its first test. *)
Lemma no_timeout_no_wait_witness :
  exists within_timeout w_exit,
    loop_left 1 Cases.impatient_runner (Scenario.batch ["cpu"]) Cases.silence
      within_timeout w_exit.
Proof.
  destruct (no_timeout_no_wait Cases.impatient_runner (Scenario.batch ["cpu"])
              Cases.silence)
    as (within_timeout & w_exit & Hloop & _);
    [discriminate|vm_compute; discriminate|in_range|in_range|].
  exists within_timeout, w_exit. exact Hloop.
Defined.

(** 120 ms are covered by six sleeps: seven tests are enough. *)
Lemma wait_is_bounded_witness :
  exists within_timeout w_exit,
    loop_left 7 Cases.brisk_runner (Scenario.batch ["cpu"; "gpu"]) Cases.late_completion
      within_timeout w_exit.
Proof.
  destruct (wait_is_bounded Cases.brisk_runner (Scenario.batch ["cpu"; "gpu"])
              Cases.late_completion)
    as (within_timeout & w_exit & k & Hloop & _); [discriminate|in_range|in_range|].
  exists within_timeout, w_exit. exact Hloop.
Defined.

(** Two equal requests and a silent engine: two failures. *)
Lemma silent_engine_fails_every_request_witness :
  exists r w',
    TriggerValidation 10 Cases.brisk_runner (Scenario.batch ["cpu"; "cpu"]) Cases.silence
    = Returned r w'
    /\ length r = 2%nat
    /\ tflite_settings <$> r = Some <$> Scenario.batch ["cpu"; "cpu"]
    /\ Forall is_missing_completion r.
Proof.
  apply (silent_engine_fails_every_request 10 Cases.brisk_runner
           (Scenario.batch ["cpu"; "cpu"]) Cases.silence false
           (Scenario.loop_exit 10 Cases.brisk_runner (Scenario.batch ["cpu"; "cpu"])
              Cases.silence));
    [discriminate|evaluated|evaluated].
Defined.

(** One record fetched for two requests: it comes first, and one record
    is added. *)
Lemma fetched_records_are_kept_witness :
  exists r w',
    TriggerValidation 20 Cases.brisk_runner (Scenario.batch ["cpu"; "gpu"])
      Cases.late_completion
    = Returned r w'
    /\ take 1 r = [Scenario.passed "cpu" 5030000 1700000000030000]
    /\ (1 <= length r <= 3)%nat.
Proof.
  destruct (fetched_records_are_kept 20 Cases.brisk_runner
              (Scenario.batch ["cpu"; "gpu"]) Cases.late_completion false
              (Scenario.loop_exit 20 Cases.brisk_runner (Scenario.batch ["cpu"; "gpu"])
                 Cases.late_completion)
              (Scenario.batch ["cpu"]))
    as (r & w' & Hrun & Hfirst & Hbounds & _); [discriminate|evaluated|evaluated|].
  exists r, w'. split; [exact Hrun|]. split; [exact Hfirst|exact Hbounds].
Defined.

Lemma returned_records_embed_settings_witness :
  exists r w',
    TriggerValidation 20 Cases.brisk_runner (Scenario.batch ["cpu"; "gpu"])
      Cases.late_completion
    = Returned r w'
    /\ forall event, event ∈ r -> is_Some (tflite_settings event).
Proof.
  destruct (returned_records_embed_settings 20 Cases.brisk_runner
              (Scenario.batch ["cpu"; "gpu"]) Cases.late_completion false
              (Scenario.loop_exit 20 Cases.brisk_runner (Scenario.batch ["cpu"; "gpu"])
                 Cases.late_completion)
              (Scenario.batch ["cpu"]))
    as (r & w' & Hrun & Hsome & _); [discriminate|evaluated|evaluated|].
  exists r, w'. split; [exact Hrun|exact Hsome].
Defined.

(** The record synthesized after the time-out is stamped past the
    deadline of 5.12 s. *)
Lemma synthesized_timestamps_follow_the_wait_witness :
  exists r w' event,
    TriggerValidation 20 Cases.brisk_runner (Scenario.batch ["cpu"; "gpu"])
      Cases.late_completion
    = Returned r w'
    /\ r !! 1%nat = Some event
    /\ (5120000 <= boottime_us event)%Z.
Proof.
  destruct (synthesized_timestamps_follow_the_wait 20 Cases.brisk_runner
              (Scenario.batch ["cpu"; "gpu"]) Cases.late_completion false
              (Scenario.loop_exit 20 Cases.brisk_runner (Scenario.batch ["cpu"; "gpu"])
                 Cases.late_completion)
              (Scenario.batch ["cpu"]))
    as (r & w' & Hrun & Hstamps); [discriminate|evaluated|evaluated|].
  assert (Hsecond : is_Some (r !! 1%nat)).
  { assert (Hr : returned (TriggerValidation 20 Cases.brisk_runner
                             (Scenario.batch ["cpu"; "gpu"]) Cases.late_completion)
                 = Some r) by (by rewrite Hrun).
    vm_compute in Hr. injection Hr as <-. by eexists. }
  destruct Hsecond as [event Hevent]. exists r, w', event.
  split; [exact Hrun|]. split; [exact Hevent|].
  destruct (Hstamps 0%nat event) as (_ & Hlate & _); [exact Hevent|].
  exact (Hlate eq_refl).
Defined.

(** After the time-out the one message is the time-out warning. *)
Lemma a_call_warns_at_most_once_witness :
  exists r w',
    TriggerValidation 20 Cases.brisk_runner (Scenario.batch ["cpu"; "gpu"])
      Cases.late_completion
    = Returned r w'
    /\ warnings w'
       = ["Validation timed out after 120 ms. Return before all tests finished."].
Proof.
  destruct (a_call_warns_at_most_once 20 Cases.brisk_runner
              (Scenario.batch ["cpu"; "gpu"]) Cases.late_completion false
              (Scenario.loop_exit 20 Cases.brisk_runner (Scenario.batch ["cpu"; "gpu"])
                 Cases.late_completion)
              (Scenario.batch ["cpu"]))
    as (r & w' & Hrun & Hwarn); [discriminate|evaluated|evaluated|].
  exists r, w'. split; [exact Hrun|]. rewrite Hwarn. evaluated.
Defined.

(** ["fd:1:23:4"] and ["fd:12:3:4"]: the colons keep the triples apart. *)
Lemma descriptor_token_is_unambiguous_witness :
  constructor_model_path (Cases.descriptor_options 1 23 4)
  ≠ constructor_model_path (Cases.descriptor_options 12 3 4).
Proof.
  apply (descriptor_token_is_unambiguous (Cases.descriptor_options 1 23 4)
           (Cases.descriptor_options 12 3 4));
    [reflexivity|reflexivity|vm_compute; discriminate|discriminate].
Defined.
